(** * A shallow embedding of [simulator.cpp]

    The simulator reads whitespace separated tokens from a file into
    [memory], checks that the [Stop] word is present and that no opcode
    exceeds [TidyUp], and then walks [memory] once, dispatching on the
    5 leading characters of every token.

    Conventions of the embedding:
    - [unsigned int] is a [Z] in [[0, UINT_MAX]], wrap-around written out
      with [wrap];
    - [std::string] is [string]; [substr] is partial because
      [std::string::substr] throws [std::out_of_range] when the start
      position lies beyond the end of the string;
    - [std::map] is a [gmap]; [operator[]] on a missing key inserts a
      value-initialised entry, which [touch] makes explicit;
    - [std::cin] is the list of the unsigned values still to be read (an
      extraction from an exhausted stream leaves its target unchanged);
      [std::cout] is the list of what has been written so far;
    - [std::cerr] followed by [return EXIT_FAILURE] is the [error] carried
      by [EXIT_FAILURE];
    - allocation of a [std::vector] is assumed to succeed;
    - the globals [instruction] and [opcode] are scratch copies of the
      current token and of its first 5 characters; they are the arguments
      and local bindings of [execute]. *)

From stdpp Require Import gmap strings list fin_maps.
From Stdlib Require Import Ascii ZArith Lia.

Local Open Scope Z_scope.

(** ** Machine integers *)

Definition UINT_BITS : Z := 32.
Definition UINT_MAX : Z := 2 ^ UINT_BITS - 1.

(** Arithmetic on [unsigned int] is modulo [2 ^ UINT_BITS]. *)
Definition wrap (v : Z) : Z := v mod 2 ^ UINT_BITS.

(** ** Strings *)

(** [std::string::substr(pos, n)]: the characters [[pos, min (pos + n) size)],
    or [std::out_of_range] ([None]) when [pos > size]. *)
Definition substr (pos n : nat) (s : string) : option string :=
  if (pos <=? String.length s)%nat then Some (String.substring pos n s) else None.

(** [std::string::substr(pos)]: everything from [pos] on. *)
Definition substr_from (pos : nat) (s : string) : option string :=
  substr pos (String.length s) s.

Definition is_bit (c : Ascii.ascii) : bool :=
  Ascii.eqb c "0"%char || Ascii.eqb c "1"%char.

(** [reg[i]] on a [const std::string]: the character, or the null character
    at [i = size]. *)
Definition char_at (i : nat) (s : string) : Ascii.ascii :=
  match String.get i s with
  | Some c => c
  | None => Ascii.zero
  end.

(** ** The opcodes *)

Module Opcode.
Definition Stop : Z := 0.
Definition In : Z := 1.
Definition Out : Z := 2.
Definition Incr : Z := 3.
Definition Add : Z := 4.
Definition Sub : Z := 5.
Definition Mul : Z := 6.
Definition List : Z := 7.
Definition ListInit : Z := 8.
Definition ListSum : Z := 9.
Definition TidyUp : Z := 10.
End Opcode.

(** ** [global::validRegister] *)

Definition validRegister (reg : string) : bool :=
  let validSize := (String.length reg =? 2)%nat in
  let validChars := is_bit (char_at 0 reg) && is_bit (char_at 1 reg) in
  validSize && validChars.

(** ** [binaryToDecimal]

    The loop adds [pow(2, length - 1 - i)] to [result] for each ['1'] at
    index [i].  The sum is computed in [double] and converted back to
    [unsigned int]; the conversion is defined only while the value fits,
    and is exact then ([None] stands for the undefined conversion). *)

Fixpoint binaryToDecimal_from (binary : string) (result : Z) : option Z :=
  match binary with
  | EmptyString => Some result
  | String c rest =>
      if Ascii.eqb c "1"%char then
        let result' := result + 2 ^ Z.of_nat (String.length rest) in
        if result' <=? UINT_MAX then binaryToDecimal_from rest result' else None
      else binaryToDecimal_from rest result
  end.

Definition binaryToDecimal (binary : string) : option Z :=
  binaryToDecimal_from binary 0.

(** ** Architectural state *)

(** What the program writes to [std::cout]. *)
Inductive output : Type :=
  | ProgramEnded                 (* "Program ended successfully.\n" *)
  | EnterValue                   (* "Enter a value: " *)
  | EnterIndex (i : nat)         (* "Enter value for index i: " *)
  | Value (v : Z).               (* a register value and [std::endl] *)

Record state : Type := State {
  registers : gmap string Z;
  arrays : gmap string (list Z);
  memory : list string;
  cin : list Z;
  cout : list output
}.

(** The messages on [std::cerr] that precede [return EXIT_FAILURE]. *)
Inductive error : Type :=
  | SourceOpenError                        (* "Could not open file." *)
  | MissingHaltError                       (* "Could not find the 'Stop' instruction." *)
  | InvalidOpcodeError (bits : string)     (* "Invalid opcode 'bits'" *)
  | InvalidRegisterError (reg : string).   (* "Invalid destination register 'reg'." *)

(** How the process ends. *)
Inductive exit : Type :=
  | EXIT_SUCCESS
  | EXIT_FAILURE (e : error)
  | out_of_range          (* uncaught exception of [substr] *)
  | undefined_conversion. (* [binaryToDecimal] beyond [UINT_MAX] *)

(** ** A state and exit monad for the handlers *)

Inductive outcome (A : Type) : Type :=
  | Next (a : A) (st : state)
  | Exit (e : exit) (st : state).
Arguments Next {A} a st.
Arguments Exit {A} e st.

Definition handler (A : Type) : Type := state → outcome A.

#[global] Instance handler_ret : MRet handler :=
  fun A (a : A) st => Next a st.

#[global] Instance handler_bind : MBind handler :=
  fun A B (k : A → handler B) (m : handler A) st =>
    match m st with
    | Next a st' => k a st'
    | Exit e st' => Exit e st'
    end.

Definition leave {A} (e : exit) : handler A := fun st => Exit e st.

Definition lift_substr (r : option string) : handler string :=
  match r with
  | Some s => mret s
  | None => leave out_of_range
  end.

Definition lift_decimal (r : option Z) : handler Z :=
  match r with
  | Some v => mret v
  | None => leave undefined_conversion
  end.

(** [if (!validRegister(reg)) return EXIT_FAILURE;] *)
Definition check_register (reg : string) : handler unit :=
  if validRegister reg then mret tt
  else leave (EXIT_FAILURE (InvalidRegisterError reg)).

(** [operator[]] inserts the value-initialised element for a missing key. *)
Definition touch {V} (k : string) (d : V) (m : gmap string V) : gmap string V :=
  match m !! k with
  | Some _ => m
  | None => <[k := d]> m
  end.

Definition reg_value (st : state) (k : string) : Z :=
  default 0 (registers st !! k).

Definition array_value (st : state) (k : string) : list Z :=
  default [] (arrays st !! k).

(** [registers[k]] as an rvalue. *)
Definition read_register (k : string) : handler Z :=
  fun st =>
    Next (reg_value st k)
      (State (touch k 0 (registers st)) (arrays st) (memory st) (cin st) (cout st)).

(** [registers[k] = v]. *)
Definition write_register (k : string) (v : Z) : handler unit :=
  fun st =>
    Next tt (State (<[k := v]> (registers st)) (arrays st) (memory st) (cin st) (cout st)).

(** [arrays[k]] as an rvalue. *)
Definition read_array (k : string) : handler (list Z) :=
  fun st =>
    Next (array_value st k)
      (State (registers st) (touch k [] (arrays st)) (memory st) (cin st) (cout st)).

(** [arrays[k] = v]. *)
Definition write_array (k : string) (v : list Z) : handler unit :=
  fun st =>
    Next tt (State (registers st) (<[k := v]> (arrays st)) (memory st) (cin st) (cout st)).

(** [std::cout << o]. *)
Definition print (o : output) : handler unit :=
  fun st =>
    Next tt (State (registers st) (arrays st) (memory st) (cin st) (cout st ++ [o])).

(** [std::cin >> target], where [target] currently holds [old]. *)
Definition extract (old : Z) : handler Z :=
  fun st =>
    match cin st with
    | [] => Next old st
    | v :: rest =>
        Next v (State (registers st) (arrays st) (memory st) rest (cout st))
    end.

(** ** The handlers of the execution loop *)

(** [for (i = 0; i < arrays[source].size(); ++i) { cout << ...; cin >> arrays[source][i]; }]
    over the elements from index [i] on. *)
Fixpoint read_elements (i : nat) (elements : list Z) : handler (list Z) :=
  match elements with
  | [] => mret []
  | old :: rest =>
      print (EnterIndex i);;
      v ← extract old;
      rest' ← read_elements (S i) rest;
      mret (v :: rest')
  end.

(** [for (unsigned int value : arrays[source]) sum += value;] *)
Definition sum_elements (elements : list Z) : Z :=
  foldl (fun sum value => wrap (sum + value)) 0 elements.

Definition handle_Stop : handler unit :=
  print ProgramEnded.

Definition handle_In (instruction : string) : handler unit :=
  print EnterValue;;
  value ← extract 0;
  destination ← lift_substr (substr 5 2 instruction);
  check_register destination;;
  write_register destination value.

Definition handle_Out (instruction : string) : handler unit :=
  source ← lift_substr (substr 5 2 instruction);
  check_register source;;
  v ← read_register source;
  print (Value v).

Definition handle_Incr (instruction : string) : handler unit :=
  field ← lift_substr (substr 5 6 instruction);
  amount ← lift_decimal (binaryToDecimal field);
  source ← lift_substr (substr_from 11 instruction);
  check_register source;;
  v ← read_register source;
  write_register source (wrap (v + amount)).

(** [Add], [Sub] and [Mul] differ in the operator only. *)
Definition handle_arith (op : Z → Z → Z) (instruction : string) : handler unit :=
  lhs ← lift_substr (substr 5 2 instruction);
  rhs ← lift_substr (substr 7 2 instruction);
  destination ← lift_substr (substr 9 2 instruction);
  check_register destination;;
  a ← read_register lhs;
  b ← read_register rhs;
  write_register destination (wrap (op a b)).

Definition handle_List (instruction : string) : handler unit :=
  discriminator ← lift_substr (substr 7 4 instruction);
  amount ←
    (if String.eqb discriminator "0000" then
       registerAddress ← lift_substr (substr 5 2 instruction);
       check_register registerAddress;;
       read_register registerAddress
     else
       field ← lift_substr (substr 5 6 instruction);
       lift_decimal (binaryToDecimal field));
  source ← lift_substr (substr_from 11 instruction);
  check_register source;;
  write_array source (replicate (Z.to_nat amount) 0).

Definition handle_ListInit (instruction : string) : handler unit :=
  source ← lift_substr (substr 5 2 instruction);
  check_register source;;
  elements ← read_array source;
  elements' ← read_elements 0 elements;
  write_array source elements'.

Definition handle_ListSum (instruction : string) : handler unit :=
  source ← lift_substr (substr 5 2 instruction);
  destination ← lift_substr (substr 7 2 instruction);
  check_register source;;
  check_register destination;;
  elements ← read_array source;
  write_register destination (sum_elements elements).

(** [for (auto &reg : registers) reg.second = 0;] *)
Definition handle_TidyUp : handler unit :=
  fun st =>
    Next tt (State ((fun _ => 0) <$> registers st) (arrays st) (memory st) (cin st) (cout st)).

(** The body of the execution loop: one pass through the [if]/[else if]
    chain for the token [instruction]. *)
Definition execute (instruction : string) : handler unit :=
  let opcode := String.substring 0 5 instruction in
  code ← lift_decimal (binaryToDecimal opcode);
  if code =? Opcode.Stop then handle_Stop
  else if code =? Opcode.In then handle_In instruction
  else if code =? Opcode.Out then handle_Out instruction
  else if code =? Opcode.Incr then handle_Incr instruction
  else if code =? Opcode.Add then handle_arith Z.add instruction
  else if code =? Opcode.Sub then handle_arith Z.sub instruction
  else if code =? Opcode.Mul then handle_arith Z.mul instruction
  else if code =? Opcode.List then handle_List instruction
  else if code =? Opcode.ListInit then handle_ListInit instruction
  else if code =? Opcode.ListSum then handle_ListSum instruction
  else if code =? Opcode.TidyUp then handle_TidyUp
  else mret tt.

(** [for (auto it = memory.begin(); it != memory.end(); ++it) ...] followed
    by [return EXIT_SUCCESS]. *)
Fixpoint run_from (rest : list string) (st : state) : exit * state :=
  match rest with
  | [] => (EXIT_SUCCESS, st)
  | instruction :: rest' =>
      match execute instruction st with
      | Next _ st' => run_from rest' st'
      | Exit e st' => (e, st')
      end
  end.

(** ** [main] *)

Definition STOP : string := "0000000000000".

(** [std::find(memory.begin(), memory.end(), "0000000000000") != memory.end()] *)
Definition has_stop (mem : list string) : bool :=
  existsb (String.eqb STOP) mem.

(** The opcode pre-pass: the first token whose opcode exceeds [TidyUp]. *)
Fixpoint check_opcodes (mem : list string) : option exit :=
  match mem with
  | [] => None
  | ins :: rest =>
      match binaryToDecimal (String.substring 0 5 ins) with
      | None => Some undefined_conversion
      | Some code =>
          if Opcode.TidyUp <? code
          then Some (EXIT_FAILURE (InvalidOpcodeError (String.substring 0 5 ins)))
          else check_opcodes rest
      end
  end.

Definition initial_registers : gmap string Z :=
  <["11" := 0]> (<["10" := 0]> (<["01" := 0]> (<["00" := 0]> ∅))).

(** The state when the execution loop is entered: [tokens] are the words of
    the input file, [input] the values waiting on [std::cin]. *)
Definition initial_state (tokens : list string) (input : list Z) : state :=
  State initial_registers ∅ tokens input [].

(** [file] is [None] when the input file cannot be opened. *)
Definition main (file : option (list string)) (input : list Z) : exit * state :=
  match file with
  | None => (EXIT_FAILURE SourceOpenError, State ∅ ∅ [] input [])
  | Some tokens =>
      let st := initial_state tokens input in
      if has_stop (memory st) then
        match check_opcodes (memory st) with
        | Some e => (e, st)
        | None => run_from (memory st) st
        end
      else (EXIT_FAILURE MissingHaltError, st)
  end.

(** ** Reference definitions used to state the properties *)

(** A 13-bit instruction word: exactly 13 characters, each ['0'] or ['1']. *)
Fixpoint all_bits (s : string) : bool :=
  match s with
  | EmptyString => true
  | String c rest => is_bit c && all_bits rest
  end.

Definition well_formed (instruction : string) : bool :=
  (String.length instruction =? 13)%nat && all_bits instruction.

(** The opcode value that [execute] dispatches on. *)
Definition opcode_of (instruction : string) : option Z :=
  binaryToDecimal (String.substring 0 5 instruction).

(** The canonical encoder of the round-trip property: [n] written on [w]
    binary digits, most significant first.  It is not part of the source. *)
Fixpoint toBinary (w : nat) (n : Z) : string :=
  match w with
  | O => EmptyString
  | S w' =>
      String (if Z.testbit n (Z.of_nat w') then "1"%char else "0"%char) (toBinary w' n)
  end.

(** The string of [k] zeros. *)
Fixpoint zeros (k : nat) : string :=
  match k with
  | O => EmptyString
  | S k' => String "0"%char (zeros k')
  end.

(** What the character at index [i] of [s] contributes:
    [2 ^ (length - 1 - i)] for a ['1'], nothing otherwise. *)
Definition contribution (s : string) (i : nat) : Z :=
  if Ascii.eqb (char_at i s) "1"%char
  then 2 ^ Z.of_nat (String.length s - 1 - i)
  else 0.

(** The sum of the contributions of all positions. *)
Definition positional_value (s : string) : Z :=
  foldr Z.add 0 (contribution s <$> seq 0 (String.length s)).

(** The operator of the arithmetic opcodes. *)
Definition arith_op (code : Z) : Z → Z → Z :=
  if code =? Opcode.Add then Z.add
  else if code =? Opcode.Sub then Z.sub
  else Z.mul.

(** The register file of the documentation: the codes [00], [01], [10], [11]. *)
Definition register_codes : gset string :=
  {["00"; "01"; "10"; "11"]}.

(** [Add], [Sub] and [Mul] words: the ones that read their source operands
    at [[5:7)] and [[7:9)]. *)
Definition arith_word (instruction : string) : bool :=
  match opcode_of instruction with
  | Some code => (code =? Opcode.Add) || (code =? Opcode.Sub) || (code =? Opcode.Mul)
  | None => false
  end.

(** The state in which a handler leaves the machine, whichever way it ends. *)
Definition final {A} (o : outcome A) : state :=
  match o with
  | Next _ st => st
  | Exit _ st => st
  end.

(** A handler keeps an invariant when it holds again in its final state. *)
Definition keeps {A} (I : state → Prop) (m : handler A) : Prop :=
  ∀ st, I st → I (final (m st)).

(** An invariant that looks at the register map only. *)
Definition on_registers (R : gmap string Z → Prop) (st : state) : Prop :=
  R (registers st).

(** A handler leaves the loop only with exits that satisfy [P]. *)
Definition exits_with {A} (P : exit → Prop) (m : handler A) : Prop :=
  ∀ st e st', m st = Exit e st' → P e.

(** The states at the instruction boundaries of the execution loop. *)
Fixpoint states_from (rest : list string) (st : state) : list state :=
  st ::
  match rest with
  | [] => []
  | instruction :: rest' =>
      match execute instruction st with
      | Next _ st' => states_from rest' st'
      | Exit _ st' => [st']
      end
  end.

(** Every character that is not ['1'] replaced by ['0']. *)
Fixpoint as_bits (s : string) : string :=
  match s with
  | EmptyString => EmptyString
  | String c rest =>
      String (if Ascii.eqb c "1"%char then "1"%char else "0"%char) (as_bits rest)
  end.

(** The values of [unsigned int]. *)
Definition is_uint (v : Z) : Prop := 0 ≤ v ≤ UINT_MAX.

(** Registers, array elements and pending console input are all values of
    [unsigned int]. *)
Definition uint_state (st : state) : Prop :=
  map_Forall (fun _ v => is_uint v) (registers st)
  ∧ map_Forall (fun _ elements => Forall is_uint elements) (arrays st)
  ∧ Forall is_uint (cin st).

(** * Properties *)

(** ** Strings and fields *)

Lemma substring_length (s : string) (pos n : nat) :
  String.length (String.substring pos n s) = (n `min` (String.length s - pos))%nat.
Proof.
  revert pos n. induction s as [|c s IH]; intros [|pos] [|n]; simpl;
    rewrite ?IH; simpl; rewrite ?Nat.sub_0_r; done.
Qed.

Lemma substring_all_bits (s : string) (pos n : nat) :
  all_bits s = true → all_bits (String.substring pos n s) = true.
Proof.
  revert pos n. induction s as [|c s IH]; intros [|pos] [|n]; simpl; try done.
  - intros [Hc Hs]%andb_prop. rewrite Hc. simpl. by apply IH.
  - intros [_ Hs]%andb_prop. by apply IH.
  - intros [_ Hs]%andb_prop. by apply IH.
Qed.

Lemma validRegister_bits (reg : string) :
  String.length reg = 2%nat → all_bits reg = true → validRegister reg = true.
Proof.
  destruct reg as [|a [|b [|c r]]]; simpl; try done.
  intros _. unfold validRegister, char_at. simpl.
  destruct (is_bit a), (is_bit b); done.
Qed.

Lemma validRegister_inv (reg : string) :
  validRegister reg = true → String.length reg = 2%nat ∧ all_bits reg = true.
Proof.
  unfold validRegister, char_at.
  destruct reg as [|a [|b [|c r]]]; simpl; try done.
  rewrite andb_true_r. done.
Qed.

(** A field that lies inside a well-formed word is extracted, has its full
    width and consists of bits. *)
Lemma substr_well_formed (ins : string) (pos n : nat) :
  well_formed ins = true → (pos + n ≤ 13)%nat →
  substr pos n ins = Some (String.substring pos n ins)
  ∧ String.length (String.substring pos n ins) = n
  ∧ all_bits (String.substring pos n ins) = true.
Proof.
  intros [Hlen%Nat.eqb_eq Hbits]%andb_prop Hle. split_and!.
  - unfold substr. rewrite Hlen. case_match; [done|].
    apply Nat.leb_gt in H. lia.
  - rewrite substring_length, Hlen. lia.
  - by apply substring_all_bits.
Qed.

Lemma substr_from_well_formed (ins : string) :
  well_formed ins = true →
  substr_from 11 ins = Some (String.substring 11 2 ins).
Proof.
  intros Hwf. unfold substr_from, substr.
  apply andb_prop in Hwf as [Hlen%Nat.eqb_eq Hbits]. rewrite Hlen. simpl.
  do 14 (destruct ins as [|? ins]; try discriminate Hlen). done.
Qed.

Lemma register_field_valid (ins : string) (pos : nat) :
  well_formed ins = true → (pos + 2 ≤ 13)%nat →
  validRegister (String.substring pos 2 ins) = true.
Proof.
  intros Hwf Hle.
  destruct (substr_well_formed ins pos 2 Hwf Hle) as (_ & Hl & Hb).
  by apply validRegister_bits.
Qed.

(** ** [binaryToDecimal] *)

Lemma char_at_cons (c : ascii) (rest : string) (i : nat) :
  char_at (S i) (String c rest) = char_at i rest.
Proof. done. Qed.

Lemma contribution_cons (c : ascii) (rest : string) (i : nat) :
  contribution (String c rest) (S i) = contribution rest i.
Proof.
  unfold contribution. rewrite char_at_cons. simpl String.length.
  replace (S (String.length rest) - 1 - S i)%nat
    with (String.length rest - 1 - i)%nat by lia.
  done.
Qed.

(** The positional value, unfolded one character at a time. *)
Lemma positional_value_cons (c : ascii) (rest : string) :
  positional_value (String c rest) =
  (if Ascii.eqb c "1"%char then 2 ^ Z.of_nat (String.length rest) else 0)
  + positional_value rest.
Proof.
  unfold positional_value. simpl String.length.
  rewrite <- cons_seq, fmap_cons. simpl foldr. f_equal.
  - unfold contribution, char_at. simpl.
    by rewrite !Nat.sub_0_r.
  - rewrite <- fmap_S_seq, <- list_fmap_compose. f_equal.
    apply list_fmap_ext. intros _ i _. apply contribution_cons.
Qed.

Lemma positional_value_nonneg (s : string) : 0 ≤ positional_value s.
Proof.
  induction s as [|c s IH]; [done|].
  rewrite positional_value_cons. case_match; lia.
Qed.

(** The loop computes the positional value exactly as long as it fits an
    [unsigned int]. *)
Lemma binaryToDecimal_from_value (s : string) (result : Z) :
  result + positional_value s ≤ UINT_MAX →
  binaryToDecimal_from s result = Some (result + positional_value s).
Proof.
  revert result. induction s as [|c s IH]; intros result Hfit.
  - simpl. f_equal. unfold positional_value. simpl. lia.
  - rewrite positional_value_cons in Hfit |- *. simpl.
    pose proof (positional_value_nonneg s).
    destruct (Ascii.eqb c "1").
    + case_match eqn:Hle.
      * rewrite IH by lia. f_equal. lia.
      * apply Z.leb_gt in Hle. lia.
    + rewrite IH by lia. f_equal.
Qed.

(** Beyond [UINT_MAX] the conversion back to [unsigned int] is undefined. *)
Lemma binaryToDecimal_from_overflow (s : string) (result : Z) :
  result ≤ UINT_MAX → UINT_MAX < result + positional_value s →
  binaryToDecimal_from s result = None.
Proof.
  revert result. induction s as [|c s IH]; intros result Hfit Hbig.
  - unfold positional_value in Hbig. simpl in Hbig. lia.
  - rewrite positional_value_cons in Hbig. simpl.
    destruct (Ascii.eqb c "1").
    + case_match eqn:Hle; [|done].
      apply Z.leb_le in Hle. apply IH; lia.
    + apply IH; lia.
Qed.

Lemma binaryToDecimal_value (s : string) :
  positional_value s ≤ UINT_MAX → binaryToDecimal s = Some (positional_value s).
Proof.
  intros Hfit. unfold binaryToDecimal.
  by rewrite binaryToDecimal_from_value.
Qed.

Lemma positional_value_bound (s : string) :
  positional_value s < 2 ^ Z.of_nat (String.length s).
Proof.
  induction s as [|c s IH]; [done|].
  rewrite positional_value_cons. simpl String.length.
  rewrite Nat2Z.inj_succ, Z.pow_succ_r by lia.
  case_match; lia.
Qed.

(** Every field the simulator decodes (at most 6 characters) is in range. *)
Lemma binaryToDecimal_short (s : string) :
  (String.length s ≤ 32)%nat → binaryToDecimal s = Some (positional_value s).
Proof.
  intros Hlen. apply binaryToDecimal_value.
  pose proof (positional_value_bound s).
  assert (2 ^ Z.of_nat (String.length s) ≤ 2 ^ 32) by (apply Z.pow_le_mono_r; lia).
  unfold UINT_MAX, UINT_BITS. lia.
Qed.

Lemma toBinary_length (w : nat) (n : Z) : String.length (toBinary w n) = w.
Proof. induction w as [|w IH]; simpl; [done|]. by rewrite IH. Qed.

Lemma positional_value_toBinary (w : nat) (n : Z) :
  positional_value (toBinary w n) = n mod 2 ^ Z.of_nat w.
Proof.
  induction w as [|w IH].
  - simpl. by rewrite Z.mod_1_r.
  - simpl toBinary. rewrite positional_value_cons, toBinary_length, IH.
    rewrite Nat2Z.inj_succ, Z.pow_succ_r by lia.
    rewrite (Z.mul_comm 2), Z.rem_mul_r by lia.
    rewrite <- Z.testbit_spec' by lia.
    destruct (Z.testbit n (Z.of_nat w)); simpl; lia.
Qed.

Lemma positional_value_zeros (k : nat) : positional_value (zeros k) = 0.
Proof.
  induction k as [|k IH]; [done|].
  simpl zeros. by rewrite positional_value_cons, IH.
Qed.

(** C8: [binaryToDecimal] inverts the fixed-width binary encoder on every
    [unsigned int] [n] below [2 ^ w]; the value of any input is the sum of
    [2 ^ (length - 1 - i)] over the positions [i] that hold a ['1'] (as long
    as that sum is an [unsigned int]); the empty string and the strings of
    zeros decode to 0. *)
Theorem binaryToDecimal_roundtrip (w : nat) (n : Z) (s : string) :
  0 ≤ n < 2 ^ Z.of_nat w → n ≤ UINT_MAX → positional_value s ≤ UINT_MAX →
  binaryToDecimal (toBinary w n) = Some n
  ∧ binaryToDecimal s = Some (positional_value s)
  ∧ binaryToDecimal EmptyString = Some 0
  ∧ binaryToDecimal (zeros w) = Some 0.
Proof.
  intros Hn Huint Hs. split_and!.
  - rewrite binaryToDecimal_value; rewrite positional_value_toBinary, Z.mod_small; done.
  - by apply binaryToDecimal_value.
  - done.
  - rewrite binaryToDecimal_value; rewrite positional_value_zeros; done.
Qed.

Lemma binaryToDecimal_roundtrip_witness :
  binaryToDecimal (toBinary 6 37) = Some 37
  ∧ binaryToDecimal "100101" = Some (positional_value "100101")
  ∧ binaryToDecimal EmptyString = Some 0
  ∧ binaryToDecimal (zeros 6) = Some 0.
Proof.
  apply (binaryToDecimal_roundtrip 6 37 "100101"); vm_compute; [split|..]; congruence.
Defined.

(** ** The handlers *)

Lemma lookup_touch {V} (k j : string) (d : V) (m : gmap string V) :
  touch k d m !! j = if decide (k = j) then Some (default d (m !! k)) else m !! j.
Proof.
  unfold touch. destruct (m !! k) as [v|] eqn:Hk; case_decide; subst; simpl.
  - done.
  - done.
  - by rewrite lookup_insert_eq.
  - by rewrite lookup_insert_ne.
Qed.

Lemma default_touch {V} (k j : string) (d : V) (m : gmap string V) :
  default d (touch k d m !! j) = default d (m !! j).
Proof. rewrite lookup_touch. case_decide; by subst. Qed.

Lemma touch_present {V} (k : string) (d : V) (m : gmap string V) :
  is_Some (m !! k) → touch k d m = m.
Proof. intros [v Hv]. unfold touch. by rewrite Hv. Qed.

Lemma dom_touch {V} (k : string) (d : V) (m : gmap string V) :
  dom (touch k d m) = {[k]} ∪ dom m.
Proof.
  unfold touch. destruct (m !! k) as [v|] eqn:Hk.
  - symmetry. apply subseteq_union_1_L, singleton_subseteq_l.
    apply elem_of_dom. eauto.
  - by rewrite dom_insert_L.
Qed.

(** Dispatch: [execute] runs the handler selected by the opcode value. *)
Lemma execute_dispatch (ins : string) (code : Z) (st : state) :
  opcode_of ins = Some code →
  execute ins st =
    (if code =? Opcode.Stop then handle_Stop
     else if code =? Opcode.In then handle_In ins
     else if code =? Opcode.Out then handle_Out ins
     else if code =? Opcode.Incr then handle_Incr ins
     else if code =? Opcode.Add then handle_arith Z.add ins
     else if code =? Opcode.Sub then handle_arith Z.sub ins
     else if code =? Opcode.Mul then handle_arith Z.mul ins
     else if code =? Opcode.List then handle_List ins
     else if code =? Opcode.ListInit then handle_ListInit ins
     else if code =? Opcode.ListSum then handle_ListSum ins
     else if code =? Opcode.TidyUp then handle_TidyUp
     else mret tt) st.
Proof.
  unfold opcode_of, execute. intros ->. done.
Qed.

Lemma opcode_of_defined (ins : string) : is_Some (opcode_of ins).
Proof.
  unfold opcode_of. rewrite binaryToDecimal_short; [done|].
  rewrite substring_length. lia.
Qed.

Lemma handle_arith_run (op : Z → Z → Z) (ins lhs rhs dest : string) (st : state) :
  substr 5 2 ins = Some lhs → substr 7 2 ins = Some rhs →
  substr 9 2 ins = Some dest → validRegister dest = true →
  handle_arith op ins st =
    Next tt (State (<[dest := wrap (op (reg_value st lhs) (reg_value st rhs))]>
                      (touch rhs 0 (touch lhs 0 (registers st))))
               (arrays st) (memory st) (cin st) (cout st)).
Proof.
  intros Hl Hr Hd Hv.
  unfold handle_arith, mbind, handler_bind, check_register.
  rewrite Hl, Hr, Hd. simpl. rewrite Hv. simpl.
  unfold write_register, reg_value. simpl. by rewrite default_touch.
Qed.

Lemma handle_List_run (ins dest : string) (size : Z) (st : state) :
  well_formed ins = true →
  dest = String.substring 11 2 ins →
  size = (if String.eqb (String.substring 7 4 ins) "0000"
          then reg_value st (String.substring 5 2 ins)
          else positional_value (String.substring 5 6 ins)) →
  ∃ regs,
    handle_List ins st =
      Next tt (State regs (<[dest := replicate (Z.to_nat size) 0]> (arrays st))
                 (memory st) (cin st) (cout st))
    ∧ ∀ r, default 0 (regs !! r) = reg_value st r.
Proof.
  intros Hwf -> ->.
  destruct (substr_well_formed ins 7 4 Hwf) as (Hd & _ & _); [lia|].
  destruct (substr_well_formed ins 5 2 Hwf) as (Hr & _ & _); [lia|].
  destruct (substr_well_formed ins 5 6 Hwf) as (Hf & Hflen & _); [lia|].
  pose proof (substr_from_well_formed ins Hwf) as Hs.
  pose proof (register_field_valid ins 5 Hwf) as Hvr.
  pose proof (register_field_valid ins 11 Hwf) as Hvs.
  unfold handle_List, mbind, handler_bind, check_register.
  rewrite Hd. simpl. destruct (String.eqb _ "0000").
  - rewrite Hr. simpl. rewrite Hvr by lia. simpl.
    rewrite Hs. simpl. rewrite Hvs by lia. simpl.
    eexists. split; [done|]. intros r. apply default_touch.
  - rewrite Hf. simpl. rewrite binaryToDecimal_short by lia. simpl.
    rewrite Hs. simpl. rewrite Hvs by lia. simpl.
    eexists. split; [done|]. done.
Qed.

Lemma handle_ListSum_unbound (ins source dest : string) (st : state) :
  substr 5 2 ins = Some source → substr 7 2 ins = Some dest →
  validRegister source = true → validRegister dest = true →
  arrays st !! source = None →
  handle_ListSum ins st =
    Next tt (State (<[dest := 0]> (registers st)) (<[source := []]> (arrays st))
               (memory st) (cin st) (cout st)).
Proof.
  intros Hs Hd Hvs Hvd Hnone.
  unfold handle_ListSum, mbind, handler_bind, check_register.
  rewrite Hs, Hd. simpl. rewrite Hvs, Hvd. simpl.
  unfold write_register, array_value, touch. simpl. by rewrite Hnone.
Qed.

(** C2 (as amended): a well-formed [Add], [Sub] or [Mul] word takes its
    destination from the 2-bit field at [[9:11)]; the result of the operation
    on the registers named at [[5:7)] and [[7:9)], reduced modulo
    [2 ^ UINT_BITS], is stored into that register, and nothing else
    changes. *)
Theorem arith_destination_field (ins : string) (code : Z) (st : state) :
  well_formed ins = true →
  opcode_of ins = Some code →
  code = Opcode.Add ∨ code = Opcode.Sub ∨ code = Opcode.Mul →
  ∃ st',
    execute ins st = Next tt st'
    ∧ substr 9 2 ins = Some (String.substring 9 2 ins)
    ∧ validRegister (String.substring 9 2 ins) = true
    ∧ registers st' !! String.substring 9 2 ins =
        Some (wrap (arith_op code (reg_value st (String.substring 5 2 ins))
                                  (reg_value st (String.substring 7 2 ins))))
    ∧ (∀ r, r ≠ String.substring 9 2 ins → reg_value st' r = reg_value st r)
    ∧ arrays st' = arrays st ∧ memory st' = memory st
    ∧ cin st' = cin st ∧ cout st' = cout st.
Proof.
  intros Hwf Hop Hcode.
  destruct (substr_well_formed ins 5 2 Hwf) as (Hl & _ & _); [lia|].
  destruct (substr_well_formed ins 7 2 Hwf) as (Hr & _ & _); [lia|].
  destruct (substr_well_formed ins 9 2 Hwf) as (Hd & _ & _); [lia|].
  pose proof (register_field_valid ins 9 Hwf) as Hv.
  specialize (Hv ltac:(lia)).
  pose proof (handle_arith_run (arith_op code) ins _ _ _ st Hl Hr Hd Hv) as Hrun.
  eexists. split_and!.
  - rewrite (execute_dispatch _ _ _ Hop), <- Hrun.
    destruct Hcode as [-> | [-> | ->]]; done.
  - done.
  - done.
  - simpl. by rewrite lookup_insert_eq.
  - intros r Hne. unfold reg_value at 1. simpl.
    rewrite lookup_insert_ne by done. rewrite !default_touch. done.
  - done.
  - done.
  - done.
  - done.
Qed.

Lemma arith_destination_field_witness :
  well_formed "0010100011000" = true
  ∧ opcode_of "0010100011000" = Some Opcode.Sub
  ∧ ∃ st',
      execute "0010100011000"
        (State (<["01" := 5]> (<["00" := 3]> initial_registers)) ∅ [] [] []) = Next tt st'
      ∧ registers st' !! "10" = Some 4294967294.
Proof.
  split; [reflexivity|]. split; [reflexivity|].
  destruct (arith_destination_field "0010100011000" Opcode.Sub
              (State (<["01" := 5]> (<["00" := 3]> initial_registers)) ∅ [] [] []))
    as (st' & Hrun & _ & _ & Hreg & _);
    [reflexivity | reflexivity | right; left; reflexivity |].
  exists st'. split; [exact Hrun | exact Hreg].
Defined.

(** C2 (as stated) fails: in the [Add] word [0010000001001] the field at
    [[11:13)] is [01] and the field at [[9:11)] is [10]; with 5 in register
    [00] the sum 10 goes to register [10], register [01] keeps its 0. *)
Lemma arith_destination_not_last_field :
  well_formed "0010000001001" = true
  ∧ opcode_of "0010000001001" = Some Opcode.Add
  ∧ substr 11 2 "0010000001001" = Some "01"
  ∧ ∃ st',
      execute "0010000001001" (State (<["00" := 5]> initial_registers) ∅ [] [] [])
        = Next tt st'
      ∧ registers st' !! "01" ≠ Some (wrap (5 + 5))
      ∧ registers st' !! "01" = Some 0
      ∧ registers st' !! "10" = Some (wrap (5 + 5)).
Proof.
  split_and!; [reflexivity..|].
  eexists. split; [vm_compute; reflexivity|].
  split_and!; [vm_compute; discriminate | vm_compute; reflexivity..].
Qed.

(** C7: a well-formed [List] word allocates a zero-filled array whose size
    is the value of the register named at [[5:7)] when the bits [[7:11)] are
    [0000], and the 6-bit literal at [[5:11)] otherwise; the array is bound
    to the code at [[11:13)], whatever was bound to it before. *)
Theorem list_allocation (ins : string) (st : state) :
  well_formed ins = true →
  opcode_of ins = Some Opcode.List →
  0 ≤ reg_value st (String.substring 5 2 ins) →
  ∃ st' size,
    execute ins st = Next tt st'
    ∧ (if String.eqb (String.substring 7 4 ins) "0000"
       then size = reg_value st (String.substring 5 2 ins)
       else binaryToDecimal (String.substring 5 6 ins) = Some size)
    ∧ arrays st' = <[String.substring 11 2 ins := replicate (Z.to_nat size) 0]> (arrays st)
    ∧ arrays st' !! String.substring 11 2 ins = Some (replicate (Z.to_nat size) 0)
    ∧ Z.of_nat (length (replicate (Z.to_nat size) 0)) = size
    ∧ (∀ r, reg_value st' r = reg_value st r)
    ∧ memory st' = memory st ∧ cin st' = cin st ∧ cout st' = cout st.
Proof.
  intros Hwf Hop Hpos.
  destruct (handle_List_run ins _ _ st Hwf eq_refl eq_refl) as (regs & Hrun & Hregs).
  rewrite (execute_dispatch _ _ _ Hop). simpl. rewrite Hrun.
  eexists _, (if String.eqb (String.substring 7 4 ins) "0000"
              then reg_value st (String.substring 5 2 ins)
              else positional_value (String.substring 5 6 ins)).
  split; [done|]. split_and!.
  - destruct (String.eqb _ "0000"); [done|].
    apply binaryToDecimal_short. rewrite substring_length. lia.
  - done.
  - simpl. by rewrite lookup_insert_eq.
  - rewrite length_replicate, Z2Nat.id; [done|].
    destruct (String.eqb _ "0000"); [done|apply positional_value_nonneg].
  - intros r. apply Hregs.
  - done.
  - done.
  - done.
Qed.

Lemma list_allocation_witness :
  ∃ st',
    execute "0011110000001" (State (<["10" := 3]> initial_registers) {["01" := [7; 8]]} [] [] [])
      = Next tt st'
    ∧ arrays st' !! "01" = Some [0; 0; 0].
Proof.
  destruct (list_allocation "0011110000001"
              (State (<["10" := 3]> initial_registers) {["01" := [7; 8]]} [] [] []))
    as (st' & size & Hrun & Hsize & _ & Harr & _);
    [reflexivity | reflexivity | vm_compute; discriminate |].
  exists st'. split; [exact Hrun|].
  simpl in Hsize. subst size. exact Harr.
Defined.

(** C9: [TidyUp] sets every register of the register file to 0, the four
    documented ones among them, and changes neither the arrays, nor program
    memory, nor the console. *)
Theorem tidyup_frame (ins : string) (st : state) :
  opcode_of ins = Some Opcode.TidyUp →
  register_codes ⊆ dom (registers st) →
  ∃ st',
    execute ins st = Next tt st'
    ∧ (∀ r, r ∈ register_codes → registers st' !! r = Some 0)
    ∧ (∀ r, r ∈ dom (registers st) → registers st' !! r = Some 0)
    ∧ dom (registers st') = dom (registers st)
    ∧ arrays st' = arrays st
    ∧ (∀ code, arrays st' !! code = arrays st !! code)
    ∧ memory st' = memory st
    ∧ cin st' = cin st ∧ cout st' = cout st.
Proof.
  intros Hop Hfile.
  rewrite (execute_dispatch _ _ _ Hop). simpl.
  assert (∀ r, r ∈ dom (registers st) →
               ((fun _ : Z => 0) <$> registers st) !! r = Some 0) as Hzero.
  { intros r [v Hv]%elem_of_dom. by rewrite lookup_fmap, Hv. }
  eexists. split; [done|]. simpl. split_and!; try done.
  - intros r Hr. apply Hzero. by apply Hfile.
  - apply dom_fmap_L.
Qed.

Lemma tidyup_frame_witness :
  ∃ st',
    execute "0101000000000" (State (<["10" := 3]> initial_registers) {["01" := [7; 8]]} [] [] [])
      = Next tt st'
    ∧ registers st' !! "10" = Some 0
    ∧ arrays st' !! "01" = Some [7; 8].
Proof.
  destruct (tidyup_frame "0101000000000"
              (State (<["10" := 3]> initial_registers) {["01" := [7; 8]]} [] [] []))
    as (st' & Hrun & Hregs & _ & _ & Harr & _);
    [reflexivity | vm_compute; set_solver |].
  exists st'. split; [exact Hrun|]. split.
  - apply Hregs. vm_compute. set_solver.
  - rewrite Harr. reflexivity.
Defined.

(** C10: [ListSum] on a well-formed word whose source code has no array
    bound stores 0 into the destination register, leaves the empty array
    bound to the source code, reports nothing and lets the run continue. *)
Theorem listsum_unbound_source (ins : string) (st : state) :
  well_formed ins = true →
  opcode_of ins = Some Opcode.ListSum →
  arrays st !! String.substring 5 2 ins = None →
  validRegister (String.substring 5 2 ins) = true
  ∧ validRegister (String.substring 7 2 ins) = true
  ∧ execute ins st =
      Next tt (State (<[String.substring 7 2 ins := 0]> (registers st))
                 (<[String.substring 5 2 ins := []]> (arrays st))
                 (memory st) (cin st) (cout st)).
Proof.
  intros Hwf Hop Hnone.
  destruct (substr_well_formed ins 5 2 Hwf) as (Hs & _ & _); [lia|].
  destruct (substr_well_formed ins 7 2 Hwf) as (Hd & _ & _); [lia|].
  pose proof (register_field_valid ins 5 Hwf ltac:(lia)) as Hvs.
  pose proof (register_field_valid ins 7 Hwf ltac:(lia)) as Hvd.
  split_and!; [done..|].
  rewrite (execute_dispatch _ _ _ Hop). simpl.
  by apply handle_ListSum_unbound.
Qed.

Lemma listsum_unbound_source_witness :
  execute "0100110110000" (State (<["11" := 9]> initial_registers) {["01" := [7; 8]]} [] [] [])
  = Next tt (State (<["11" := 0]> (<["11" := 9]> initial_registers))
               (<["10" := []]> {["01" := [7; 8]]}) [] [] []).
Proof.
  destruct (listsum_unbound_source "0100110110000"
              (State (<["11" := 9]> initial_registers) {["01" := [7; 8]]} [] [] []))
    as (_ & _ & Hrun); [reflexivity..|].
  exact Hrun.
Defined.

(** ** The validation passes of [main] *)

Lemma has_stop_elem_of (mem : list string) :
  has_stop mem = true ↔ STOP ∈ mem.
Proof.
  unfold has_stop. rewrite existsb_exists. split.
  - intros (x & Hin & Heq). apply String.eqb_eq in Heq. subst x.
    by apply list_elem_of_In.
  - intros Hin. exists STOP. split; [by apply list_elem_of_In|].
    apply String.eqb_refl.
Qed.

(** The pre-pass stops at the first token whose opcode exceeds [TidyUp]. *)
Lemma check_opcodes_rejects (mem : list string) (ins : string) (code : Z) :
  ins ∈ mem → opcode_of ins = Some code → Opcode.TidyUp < code →
  ∃ bad code',
    bad ∈ mem ∧ opcode_of bad = Some code' ∧ Opcode.TidyUp < code'
    ∧ check_opcodes mem = Some (EXIT_FAILURE (InvalidOpcodeError (String.substring 0 5 bad))).
Proof.
  intros Hin Hop Hbig. induction mem as [|first mem IH]; [by apply elem_of_nil in Hin|].
  simpl. destruct (opcode_of_defined first) as [c Hc].
  unfold opcode_of in Hc. rewrite Hc.
  destruct (Opcode.TidyUp <? c) eqn:Hlt.
  - exists first, c. apply Z.ltb_lt in Hlt. split_and!; [left|done..].
  - apply elem_of_cons in Hin as [-> | Hin].
    + unfold opcode_of in Hop. rewrite Hop in Hc. injection Hc as ->.
      apply Z.ltb_ge in Hlt. lia.
    + destruct (IH Hin) as (bad & code' & Hbad & Hop' & Hbig' & Hcheck).
      exists bad, code'. split_and!; [by right|done..].
Qed.

(** The pre-pass lets a program through exactly when no opcode exceeds
    [TidyUp]. *)
Lemma check_opcodes_accepts (mem : list string) :
  (∀ ins code, ins ∈ mem → opcode_of ins = Some code → code ≤ Opcode.TidyUp) →
  check_opcodes mem = None.
Proof.
  induction mem as [|first mem IH]; intros Hall; [done|].
  simpl. destruct (opcode_of_defined first) as [c Hc].
  pose proof (Hall first c ltac:(left) Hc) as Hle.
  unfold opcode_of in Hc. rewrite Hc.
  destruct (Opcode.TidyUp <? c) eqn:Hlt; [apply Z.ltb_lt in Hlt; lia|].
  apply IH. intros ins code Hin. apply Hall. by right.
Qed.

(** C5: a program without the token [0000000000000] is rejected with
    [MissingHaltError]; registers, arrays and console are as they were when
    the program was loaded, whatever else the program contains. *)
Theorem missing_halt_rejected (tokens : list string) (input : list Z) :
  STOP ∉ tokens →
  main (Some tokens) input = (EXIT_FAILURE MissingHaltError, initial_state tokens input).
Proof.
  intros Hno. unfold main. simpl.
  destruct (has_stop tokens) eqn:Hstop; [|done].
  by apply has_stop_elem_of in Hstop.
Qed.

Lemma missing_halt_rejected_witness :
  main (Some ["0001100010100"; "1111100000000"; "000000000000"]) [4]
  = (EXIT_FAILURE MissingHaltError,
     initial_state ["0001100010100"; "1111100000000"; "000000000000"] [4]).
Proof.
  apply (missing_halt_rejected ["0001100010100"; "1111100000000"; "000000000000"] [4]).
  vm_compute. intros Hin. by apply has_stop_elem_of in Hin.
Defined.

(** C6 (as amended): a program that contains the [Stop] token and a token
    whose opcode field decodes above [TidyUp] is rejected with
    [InvalidOpcodeError], naming the opcode bits of such a token; registers,
    arrays and console are as they were when the program was loaded. *)
Theorem invalid_opcode_rejected
    (tokens : list string) (input : list Z) (ins : string) (code : Z) :
  STOP ∈ tokens →
  ins ∈ tokens → opcode_of ins = Some code → Opcode.TidyUp < code →
  ∃ bad code',
    bad ∈ tokens ∧ opcode_of bad = Some code' ∧ Opcode.TidyUp < code'
    ∧ main (Some tokens) input =
        (EXIT_FAILURE (InvalidOpcodeError (String.substring 0 5 bad)),
         initial_state tokens input).
Proof.
  intros Hstop%has_stop_elem_of Hin Hop Hbig.
  destruct (check_opcodes_rejects tokens ins code Hin Hop Hbig)
    as (bad & code' & Hbad & Hop' & Hbig' & Hcheck).
  exists bad, code'. split_and!; [done..|].
  unfold main. simpl. by rewrite Hstop, Hcheck.
Qed.

Lemma invalid_opcode_rejected_witness :
  ∃ bad code',
    bad ∈ ["0001100010100"; "0101100000000"; STOP]
    ∧ opcode_of bad = Some code' ∧ Opcode.TidyUp < code'
    ∧ main (Some ["0001100010100"; "0101100000000"; STOP]) [4] =
        (EXIT_FAILURE (InvalidOpcodeError (String.substring 0 5 bad)),
         initial_state ["0001100010100"; "0101100000000"; STOP] [4]).
Proof.
  apply (invalid_opcode_rejected ["0001100010100"; "0101100000000"; STOP] [4]
           "0101100000000" 11).
  - apply has_stop_elem_of. reflexivity.
  - right. left.
  - reflexivity.
  - reflexivity.
Defined.

(** C6 (as stated) fails: the only token of this program has opcode 31, but
    the program lacks the [Stop] token and is rejected with
    [MissingHaltError], not [InvalidOpcodeError]. *)
Lemma invalid_opcode_without_stop :
  opcode_of "1111100000000" = Some 31
  ∧ Opcode.TidyUp < 31
  ∧ main (Some ["1111100000000"]) [] =
      (EXIT_FAILURE MissingHaltError, initial_state ["1111100000000"] [])
  ∧ ∀ bits, (main (Some ["1111100000000"]) []).1 ≠ EXIT_FAILURE (InvalidOpcodeError bits).
Proof.
  split_and!; [reflexivity..|]. intros bits. vm_compute. discriminate.
Qed.

(** ** Runs that show where the loop departs from its documentation *)

(** C1: the [Stop] handler prints the success message but does not leave the
    loop.  In [Stop; Incr 5, 00] the increment after [Stop] is executed, and
    in [Stop; Out] with a truncated [Out] word the run even ends in failure
    after having announced success. *)
Theorem stop_does_not_end_loop :
  main (Some [STOP; "0001100010100"]) [] =
    (EXIT_SUCCESS,
     State (<["00" := 5]> initial_registers) ∅ [STOP; "0001100010100"] [] [ProgramEnded])
  ∧ main (Some [STOP; "00010"]) [] =
      (EXIT_FAILURE (InvalidRegisterError ""),
       State initial_registers ∅ [STOP; "00010"] [] [ProgramEnded]).
Proof. split; vm_compute; reflexivity. Qed.

(** C3: the source fields of [Add], [Sub] and [Mul] are used without being
    validated.  The [Add] word [0010020000100] names [20] as its left
    operand; the run does not abort, it stores the sum into register [01]
    and goes on to the end of the program. *)
Theorem arith_sources_not_validated :
  opcode_of "0010020000100" = Some Opcode.Add
  ∧ substr 5 2 "0010020000100" = Some "20"
  ∧ validRegister "20" = false
  ∧ main (Some ["0001100010100"; "0010020000100"; STOP]) [] =
      (EXIT_SUCCESS,
       State (<["20" := 0]> (<["01" := 5]> (<["00" := 5]> initial_registers))) ∅
         ["0001100010100"; "0010020000100"; STOP] [] [ProgramEnded]).
Proof. split_and!; vm_compute; reflexivity. Qed.

(** C4: reading an unvalidated source operand through [operator[]] adds an
    entry to the register map.  After the [Mul] word [0011000120000] the
    register file has five registers, [12] among them. *)
Theorem arith_creates_register :
  ("12" ∉ register_codes)
  ∧ dom (registers (initial_state ["0011000120000"; STOP] [])) = register_codes
  ∧ (main (Some ["0011000120000"; STOP]) []).1 = EXIT_SUCCESS
  ∧ registers (main (Some ["0011000120000"; STOP]) []).2 !! "12" = Some 0
  ∧ size (registers (main (Some ["0011000120000"; STOP]) []).2) = 5%nat.
Proof.
  split_and!; try (vm_compute; reflexivity).
  vm_compute. set_solver.
Qed.

(** ** Invariants of the register file *)

Section register_invariant.
Variable R : gmap string Z → Prop.

Lemma keeps_ret {A} (a : A) : keeps (on_registers R) (mret a).
Proof. by intros st. Qed.

Lemma keeps_leave {A} (e : exit) : keeps (on_registers R) (@leave A e).
Proof. by intros st. Qed.

Lemma keeps_bind {A B} (m : handler A) (k : A → handler B) :
  keeps (on_registers R) m → (∀ a, keeps (on_registers R) (k a)) →
  keeps (on_registers R) (m ≫= k).
Proof.
  intros Hm Hk st Hst. specialize (Hm st Hst).
  unfold mbind, handler_bind. destruct (m st) as [a st'|e st']; simpl in *.
  - by apply Hk.
  - done.
Qed.

Lemma keeps_substr {B} (r : option string) (k : string → handler B) :
  (∀ s, r = Some s → keeps (on_registers R) (k s)) →
  keeps (on_registers R) (lift_substr r ≫= k).
Proof. intros Hk. destruct r as [s|]; [by apply Hk|]. by intros st. Qed.

Lemma keeps_decimal {B} (r : option Z) (k : Z → handler B) :
  (∀ v, r = Some v → keeps (on_registers R) (k v)) →
  keeps (on_registers R) (lift_decimal r ≫= k).
Proof. intros Hk. destruct r as [v|]; [by apply Hk|]. by intros st. Qed.

Lemma keeps_lift_decimal (r : option Z) : keeps (on_registers R) (lift_decimal r).
Proof. destruct r; by intros st. Qed.

Lemma keeps_check {B} (reg : string) (k : unit → handler B) :
  (validRegister reg = true → keeps (on_registers R) (k tt)) →
  keeps (on_registers R) (check_register reg ≫= k).
Proof.
  intros Hk. unfold check_register.
  destruct (validRegister reg); [by apply Hk|]. by intros st.
Qed.

Lemma keeps_print (o : output) : keeps (on_registers R) (print o).
Proof. by intros st. Qed.

Lemma keeps_extract (old : Z) : keeps (on_registers R) (extract old).
Proof. intros st Hst. unfold extract. by destruct (cin st). Qed.

Lemma keeps_read_array (k : string) : keeps (on_registers R) (read_array k).
Proof. by intros st. Qed.

Lemma keeps_write_array (k : string) (v : list Z) :
  keeps (on_registers R) (write_array k v).
Proof. by intros st. Qed.

Lemma keeps_read_elements (i : nat) (elements : list Z) :
  keeps (on_registers R) (read_elements i elements).
Proof.
  revert i. induction elements as [|old rest IH]; intros i; simpl.
  - apply keeps_ret.
  - apply keeps_bind; [apply keeps_print|]. intros _.
    apply keeps_bind; [apply keeps_extract|]. intros v.
    apply keeps_bind; [apply IH|]. intros rest'. apply keeps_ret.
Qed.

Lemma keeps_read_register (k : string) :
  (∀ m, R m → R (touch k 0 m)) → keeps (on_registers R) (read_register k).
Proof. intros Hk st Hst. by apply Hk. Qed.

Lemma keeps_write_register (k : string) (v : Z) :
  (∀ m, R m → R (<[k := v]> m)) → keeps (on_registers R) (write_register k v).
Proof. intros Hk st Hst. by apply Hk. Qed.

Lemma keeps_TidyUp :
  (∀ m, R m → R ((fun _ => 0) <$> m)) → keeps (on_registers R) handle_TidyUp.
Proof. intros Hk st Hst. by apply Hk. Qed.
End register_invariant.

Ltac keeps_step :=
  first
    [ apply keeps_ret | apply keeps_leave | apply keeps_print
    | apply keeps_extract | apply keeps_read_array | apply keeps_write_array
    | apply keeps_read_elements | apply keeps_lift_decimal
    | apply keeps_read_register; solve [eauto]
    | apply keeps_write_register; solve [eauto]
    | apply keeps_TidyUp; solve [eauto]
    | apply keeps_substr; intros ? ?
    | apply keeps_decimal; intros ? ?
    | apply keeps_check; intros ?
    | apply keeps_bind; [|intros ?] ].

(** The body of the loop keeps every invariant of the register map that
    survives [TidyUp], a read and an overwrite of a register named by a valid
    code, and a read of the source operands of an arithmetic word. *)
Lemma keeps_execute (R : gmap string Z → Prop) (ins : string) :
  (∀ k m, validRegister k = true → R m → R (touch k 0 m)) →
  (∀ k v m, validRegister k = true → R m → R (<[k := v]> m)) →
  (∀ m, R m → R ((fun _ => 0) <$> m)) →
  (∀ k m, arith_word ins = true →
          substr 5 2 ins = Some k ∨ substr 7 2 ins = Some k →
          R m → R (touch k 0 m)) →
  keeps (on_registers R) (execute ins).
Proof.
  intros Hread Hwrite Htidy Hsrc.
  unfold execute. apply keeps_decimal. intros code Hcode.
  unfold handle_Stop, handle_In, handle_Out, handle_Incr, handle_arith,
    handle_List, handle_ListInit, handle_ListSum.
  repeat case_match;
    try (assert (arith_word ins = true)
           by (unfold arith_word, opcode_of; rewrite Hcode;
               repeat match goal with
                      | H : (_ =? _) = _ |- _ => rewrite H; clear H
                      end; done));
    repeat keeps_step.
  case_match; repeat keeps_step.
Qed.

(** Whatever the token, no register is removed by executing it. *)
Lemma execute_registers_kept (ins : string) (st : state) :
  dom (registers st) ⊆ dom (registers (final (execute ins st))).
Proof.
  apply (keeps_execute (fun m => dom (registers st) ⊆ dom m) ins);
    [..|unfold on_registers; reflexivity].
  - intros k m _ Hm. rewrite dom_touch. by apply union_subseteq_r'.
  - intros k v m _ Hm. rewrite dom_insert_L. by apply union_subseteq_r'.
  - intros m Hm. by rewrite dom_fmap_L.
  - intros k m _ _ Hm. rewrite dom_touch. by apply union_subseteq_r'.
Qed.

Lemma validRegister_codes (reg : string) :
  validRegister reg = true ↔ reg ∈ register_codes.
Proof.
  unfold register_codes. rewrite !elem_of_union, !elem_of_singleton. split.
  - intros [Hlen Hbits]%validRegister_inv.
    destruct reg as [|a [|b [|c r]]]; try done. simpl in Hbits.
    apply andb_prop in Hbits as [Ha Hb]. rewrite andb_true_r in Hb.
    unfold is_bit in Ha, Hb.
    apply orb_prop in Ha as [Ha|Ha], Hb as [Hb|Hb];
      apply Ascii.eqb_eq in Ha, Hb; subst; auto.
  - intros [[[-> | ->] | ->] | ->]; done.
Qed.

(** A token whose arithmetic source operands, if it has any, are register
    codes leaves the register file with exactly its four registers. *)
Lemma execute_register_file (ins : string) (st : state) :
  (∀ k, arith_word ins = true →
        substr 5 2 ins = Some k ∨ substr 7 2 ins = Some k →
        validRegister k = true) →
  dom (registers st) = register_codes →
  dom (registers (final (execute ins st))) = register_codes.
Proof.
  intros Hsrc Hst.
  assert (∀ k (m : gmap string Z),
            validRegister k = true → dom m = register_codes →
            dom (touch k 0 m) = register_codes) as Htouch.
  { intros k m Hk%validRegister_codes Hm. rewrite dom_touch, Hm.
    apply subseteq_union_1_L. by apply singleton_subseteq_l. }
  apply (keeps_execute (fun m => dom m = register_codes) ins); [done|..|done].
  - intros k v m Hk%validRegister_codes Hm. rewrite dom_insert_L, Hm.
    apply subseteq_union_1_L. by apply singleton_subseteq_l.
  - intros m Hm. by rewrite dom_fmap_L.
  - intros k m Harith Hk Hm. apply Htouch; [|done]. by apply Hsrc.
Qed.

(** A well-formed word satisfies the condition of [execute_register_file]. *)
Lemma well_formed_sources (ins k : string) :
  well_formed ins = true →
  substr 5 2 ins = Some k ∨ substr 7 2 ins = Some k →
  validRegister k = true.
Proof.
  intros Hwf [Hk|Hk].
  - destruct (substr_well_formed ins 5 2 Hwf) as (Hs & _ & _); [lia|].
    rewrite Hs in Hk. injection Hk as <-. apply register_field_valid; [done|lia].
  - destruct (substr_well_formed ins 7 2 Hwf) as (Hs & _ & _); [lia|].
    rewrite Hs in Hk. injection Hk as <-. apply register_field_valid; [done|lia].
Qed.

(** ** The register file along a run *)

Lemma initial_register_file : dom initial_registers = register_codes.
Proof. by vm_compute. Qed.

Lemma states_from_head (rest : list string) (st : state) :
  st ∈ states_from rest st.
Proof. destruct rest; left. Qed.

(** The loop ends in the last of the states it passes through. *)
Lemma run_from_last (rest : list string) (st : state) :
  last (states_from rest st) = Some (run_from rest st).2.
Proof.
  revert st. induction rest as [|ins rest IH]; intros st; [done|].
  simpl. destruct (execute ins st) as [[] st'|e st']; [|done].
  rewrite <- IH. by destruct rest.
Qed.

(** An invariant kept by every token of the program holds at every
    instruction boundary. *)
Lemma states_from_invariant (I : state → Prop) (rest : list string) (st : state) :
  (∀ ins, ins ∈ rest → keeps I (execute ins)) →
  I st → ∀ st', st' ∈ states_from rest st → I st'.
Proof.
  revert st. induction rest as [|ins rest IH]; intros st Hkeeps Hst st' Hin.
  - apply list_elem_of_singleton in Hin. by subst.
  - simpl in Hin. apply elem_of_cons in Hin as [-> | Hin]; [done|].
    pose proof (Hkeeps ins ltac:(left) st Hst) as Hnext.
    destruct (execute ins st) as [[] st1|e st1]; simpl in Hnext.
    + apply (IH st1); [|done..]. intros ins' Hin'. apply Hkeeps. by right.
    + apply list_elem_of_singleton in Hin. by subst.
Qed.

(** Registers are never destroyed: the four registers of the initial
    register file are present at every instruction boundary of every run. *)
Lemma registers_never_destroyed (tokens : list string) (input : list Z) (st : state) :
  st ∈ states_from tokens (initial_state tokens input) →
  register_codes ⊆ dom (registers st).
Proof.
  apply (states_from_invariant (fun st => register_codes ⊆ dom (registers st))).
  - intros ins _ st0 Hst0. etrans; [exact Hst0|]. apply execute_registers_kept.
  - simpl. by rewrite initial_register_file.
Qed.

(** When the source operands of every arithmetic word are register codes,
    the register file consists of exactly the four registers at every
    instruction boundary. *)
Lemma register_file_valid_sources (tokens : list string) (input : list Z) (st : state) :
  (∀ ins k, ins ∈ tokens → arith_word ins = true →
            substr 5 2 ins = Some k ∨ substr 7 2 ins = Some k →
            validRegister k = true) →
  st ∈ states_from tokens (initial_state tokens input) →
  dom (registers st) = register_codes.
Proof.
  intros Hsrc.
  apply (states_from_invariant (fun st => dom (registers st) = register_codes)).
  - intros ins Hin st0 Hst0. apply execute_register_file; [|done].
    intros k. by apply Hsrc.
  - apply initial_register_file.
Qed.

(** In particular for programs made of well-formed 13-bit words. *)
Lemma register_file_well_formed (tokens : list string) (input : list Z) (st : state) :
  (∀ ins, ins ∈ tokens → well_formed ins = true) →
  st ∈ states_from tokens (initial_state tokens input) →
  dom (registers st) = register_codes.
Proof.
  intros Hwf. apply register_file_valid_sources.
  intros ins k Hin _. apply well_formed_sources. by apply Hwf.
Qed.

(** [main] ends in one of the states of the loop (the initial one when a
    validation pass fails). *)
Lemma main_final_state (tokens : list string) (input : list Z) :
  (main (Some tokens) input).2 ∈ states_from tokens (initial_state tokens input).
Proof.
  unfold main. simpl.
  destruct (has_stop tokens); [|apply states_from_head].
  destruct (check_opcodes tokens); [apply states_from_head|].
  pose proof (run_from_last tokens (initial_state tokens input)) as Hlast.
  apply last_Some in Hlast as [l Hl]. rewrite Hl.
  apply elem_of_app. right. left.
Qed.

(** ** How a handler can leave the loop *)

Section exits.
Variable P : exit → Prop.

Lemma exits_ret {A} (a : A) : exits_with P (mret a).
Proof. by intros st e st'. Qed.

Lemma exits_bind {A B} (m : handler A) (k : A → handler B) :
  exits_with P m → (∀ a, exits_with P (k a)) → exits_with P (m ≫= k).
Proof.
  intros Hm Hk st e st'. unfold mbind, handler_bind.
  destruct (m st) as [a st1|e1 st1] eqn:Hrun.
  - apply Hk.
  - intros [= <- <-]. by apply (Hm st e1 st1).
Qed.

Lemma exits_substr {B} (r : option string) (k : string → handler B) :
  (r = None → P out_of_range) →
  (∀ s, r = Some s → exits_with P (k s)) →
  exits_with P (lift_substr r ≫= k).
Proof.
  intros Hnone Hk. destruct r as [s|]; [by apply Hk|].
  intros st e st' [= <- <-]. by apply Hnone.
Qed.

Lemma exits_decimal {B} (r : option Z) (k : Z → handler B) :
  (r = None → P undefined_conversion) →
  (∀ v, r = Some v → exits_with P (k v)) →
  exits_with P (lift_decimal r ≫= k).
Proof.
  intros Hnone Hk. destruct r as [v|]; [by apply Hk|].
  intros st e st' [= <- <-]. by apply Hnone.
Qed.

Lemma exits_lift_decimal (r : option Z) :
  (r = None → P undefined_conversion) → exits_with P (lift_decimal r).
Proof.
  intros Hnone. destruct r as [v|]; [done|].
  intros st e st' [= <- <-]. by apply Hnone.
Qed.

Lemma exits_check {B} (reg : string) (k : unit → handler B) :
  (validRegister reg = false → P (EXIT_FAILURE (InvalidRegisterError reg))) →
  (validRegister reg = true → exits_with P (k tt)) →
  exits_with P (check_register reg ≫= k).
Proof.
  intros Hbad Hk. unfold check_register.
  destruct (validRegister reg); [by apply Hk|].
  intros st e st' [= <- <-]. by apply Hbad.
Qed.

Lemma exits_print (o : output) : exits_with P (print o).
Proof. by intros st e st'. Qed.

Lemma exits_extract (old : Z) : exits_with P (extract old).
Proof. intros st e st'. unfold extract. by destruct (cin st). Qed.

Lemma exits_read_register (k : string) : exits_with P (read_register k).
Proof. by intros st e st'. Qed.

Lemma exits_write_register (k : string) (v : Z) : exits_with P (write_register k v).
Proof. by intros st e st'. Qed.

Lemma exits_read_array (k : string) : exits_with P (read_array k).
Proof. by intros st e st'. Qed.

Lemma exits_write_array (k : string) (v : list Z) : exits_with P (write_array k v).
Proof. by intros st e st'. Qed.

Lemma exits_TidyUp : exits_with P handle_TidyUp.
Proof. by intros st e st'. Qed.

Lemma exits_read_elements (i : nat) (elements : list Z) :
  exits_with P (read_elements i elements).
Proof.
  revert i. induction elements as [|old rest IH]; intros i; simpl.
  - apply exits_ret.
  - apply exits_bind; [apply exits_print|]. intros _.
    apply exits_bind; [apply exits_extract|]. intros v.
    apply exits_bind; [apply IH|]. intros rest'. apply exits_ret.
Qed.
End exits.

Ltac exits_step :=
  first
    [ apply exits_ret | apply exits_print | apply exits_extract
    | apply exits_read_register | apply exits_write_register
    | apply exits_read_array | apply exits_write_array
    | apply exits_read_elements | apply exits_TidyUp
    | apply exits_substr; [intros ?|intros ? ?]
    | apply exits_decimal; [intros ?|intros ? ?]
    | apply exits_lift_decimal; intros ?
    | apply exits_check; [intros ?|intros ?]
    | apply exits_bind; [|intros ?] ].

Lemma field_decimal_defined (pos n : nat) (ins field : string) :
  substr pos n ins = Some field → (n ≤ 32)%nat → binaryToDecimal field ≠ None.
Proof.
  unfold substr. case_match; [|done]. intros [= <-] Hn.
  rewrite binaryToDecimal_short; [done|]. rewrite substring_length. lia.
Qed.

(** The exits of the loop body: the exception of [substr] on a token that is
    too short, or the failure of a register check.  The conversion inside
    [binaryToDecimal] is never undefined on the fields the loop decodes. *)
Lemma execute_exits (ins : string) :
  exits_with
    (fun e => e = out_of_range
              ∨ ∃ reg, e = EXIT_FAILURE (InvalidRegisterError reg)
                       ∧ validRegister reg = false)
    (execute ins).
Proof.
  unfold execute. apply exits_decimal.
  { intros Hnone. destruct (opcode_of_defined ins) as [c Hc].
    unfold opcode_of in Hc. congruence. }
  intros code Hcode.
  unfold handle_Stop, handle_In, handle_Out, handle_Incr, handle_arith,
    handle_List, handle_ListInit, handle_ListSum.
  repeat case_match; repeat exits_step; eauto.
  all: try (exfalso; eapply field_decimal_defined; [eassumption|lia|eassumption]).
  case_match; repeat exits_step; eauto.
  exfalso; eapply field_decimal_defined; [eassumption|lia|eassumption].
Qed.

(** ** Programs made of well-formed words *)

Section well_formed_word.
Variable ins : string.
Hypothesis Hwf : well_formed ins = true.

Lemma wf_substr_defined (pos n : nat) :
  (pos ≤ 13)%nat → substr pos n ins ≠ None.
Proof.
  intros Hpos. unfold substr.
  apply andb_prop in Hwf as [Hlen%Nat.eqb_eq _]. rewrite Hlen.
  case_match eqn:Hle; [done|]. apply Nat.leb_gt in Hle. lia.
Qed.

Lemma wf_substr_from_defined : substr_from 11 ins ≠ None.
Proof. by rewrite substr_from_well_formed. Qed.

Lemma wf_field_valid (pos : nat) (reg : string) :
  validRegister reg = false → substr pos 2 ins = Some reg → (pos + 2 ≤ 13)%nat →
  False.
Proof.
  intros Hbad Hreg Hpos.
  destruct (substr_well_formed ins pos 2 Hwf Hpos) as (Hs & _ & _).
  rewrite Hs in Hreg. injection Hreg as <-.
  by rewrite register_field_valid in Hbad.
Qed.

Lemma wf_last_field_valid (reg : string) :
  validRegister reg = false → substr_from 11 ins = Some reg → False.
Proof.
  intros Hbad Hreg. rewrite substr_from_well_formed in Hreg by done.
  injection Hreg as <-. by rewrite register_field_valid in Hbad.
Qed.

(** A well-formed word never makes the loop body leave the loop. *)
Lemma execute_well_formed : exits_with (fun _ => False) (execute ins).
Proof.
  unfold execute. apply exits_decimal.
  { intros Hnone. destruct (opcode_of_defined ins) as [c Hc].
    unfold opcode_of in Hc. congruence. }
  intros code Hcode.
  unfold handle_Stop, handle_In, handle_Out, handle_Incr, handle_arith,
    handle_List, handle_ListInit, handle_ListSum.
  repeat case_match; repeat exits_step.
  all: try (case_match; repeat exits_step).
  all: first
    [ eapply wf_substr_defined; [|eassumption]; lia
    | eapply wf_substr_from_defined; eassumption
    | eapply wf_field_valid; [eassumption|eassumption|lia]
    | eapply wf_last_field_valid; eassumption
    | eapply field_decimal_defined; [eassumption|lia|eassumption] ].
Qed.
End well_formed_word.

Lemma run_from_well_formed (rest : list string) (st : state) :
  (∀ ins, ins ∈ rest → well_formed ins = true) →
  (run_from rest st).1 = EXIT_SUCCESS.
Proof.
  revert st. induction rest as [|ins rest IH]; intros st Hwf; [done|].
  simpl. destruct (execute ins st) as [[] st'|e st'] eqn:Hrun.
  - apply IH. intros ins' Hin. apply Hwf. by right.
  - destruct (execute_well_formed ins (Hwf ins ltac:(left)) st e st' Hrun).
Qed.

(** A program of well-formed words that contains [Stop] and no opcode above
    [TidyUp] runs through all of its words and exits with success. *)
Lemma well_formed_program_succeeds (tokens : list string) (input : list Z) :
  (∀ ins, ins ∈ tokens → well_formed ins = true) →
  STOP ∈ tokens →
  (∀ ins code, ins ∈ tokens → opcode_of ins = Some code → code ≤ Opcode.TidyUp) →
  (main (Some tokens) input).1 = EXIT_SUCCESS
  ∧ (main (Some tokens) input).2 = (run_from tokens (initial_state tokens input)).2.
Proof.
  intros Hwf Hstop%has_stop_elem_of Hcodes. unfold main. simpl.
  rewrite Hstop, check_opcodes_accepts by done.
  split; [by apply run_from_well_formed|done].
Qed.

(** What the [Stop] branch does: it prints and falls through to the next
    iteration. *)
Lemma stop_falls_through (ins : string) (rest : list string) (st : state) :
  opcode_of ins = Some Opcode.Stop →
  run_from (ins :: rest) st =
    run_from rest
      (State (registers st) (arrays st) (memory st) (cin st) (cout st ++ [ProgramEnded])).
Proof. intros Hop. simpl. by rewrite (execute_dispatch _ _ _ Hop). Qed.

(** * Further properties of the simulator *)

(** ** Decoding *)

(** X1: [validRegister] accepts exactly the four strings [00], [01], [10]
    and [11]. *)
Theorem validRegister_four_codes (reg : string) :
  validRegister reg = true ↔ reg = "00" ∨ reg = "01" ∨ reg = "10" ∨ reg = "11".
Proof.
  rewrite validRegister_codes. unfold register_codes.
  rewrite !elem_of_union, !elem_of_singleton. tauto.
Qed.

Lemma as_bits_length (s : string) : String.length (as_bits s) = String.length s.
Proof. induction s as [|c s IH]; simpl; [done|]. by rewrite IH. Qed.

Lemma binaryToDecimal_from_as_bits (s : string) (result : Z) :
  binaryToDecimal_from (as_bits s) result = binaryToDecimal_from s result.
Proof.
  revert result. induction s as [|c s IH]; intros result; [done|].
  simpl. rewrite as_bits_length.
  destruct (Ascii.eqb c "1") eqn:Hc; simpl.
  - case_match; [apply IH|done].
  - apply IH.
Qed.

(** X2: [binaryToDecimal] looks only at which characters are ['1']: any
    other character, binary digit or not, counts as ['0']. *)
Theorem binaryToDecimal_other_characters (s : string) :
  binaryToDecimal (as_bits s) = binaryToDecimal s
  ∧ all_bits (as_bits s) = true.
Proof.
  split; [apply binaryToDecimal_from_as_bits|].
  induction s as [|c s IH]; [done|]. simpl. rewrite IH.
  by destruct (Ascii.eqb c "1").
Qed.

(** X3: on a field of at most 32 characters [binaryToDecimal] is defined and
    its value is below [2 ^ length]; so an opcode field decodes below 32 and
    a 6-character literal below 64. *)
Theorem binaryToDecimal_field_bound (s : string) :
  (String.length s ≤ 32)%nat →
  ∃ v, binaryToDecimal s = Some v ∧ 0 ≤ v < 2 ^ Z.of_nat (String.length s).
Proof.
  intros Hlen. exists (positional_value s). split.
  - by apply binaryToDecimal_short.
  - split; [apply positional_value_nonneg|apply positional_value_bound].
Qed.

Lemma binaryToDecimal_field_bound_witness :
  ∃ v, binaryToDecimal "1x1101" = Some v ∧ 0 ≤ v < 2 ^ Z.of_nat (String.length "1x1101").
Proof. apply (binaryToDecimal_field_bound "1x1101"). simpl. lia. Defined.

Lemma string_app_length (s1 s2 : string) :
  String.length (s1 +:+ s2) = (String.length s1 + String.length s2)%nat.
Proof.
  induction s1 as [|c s1 IH]; [done|].
  change (String c s1 +:+ s2) with (String c (s1 +:+ s2)). simpl. by rewrite IH.
Qed.

Lemma positional_value_app (s1 s2 : string) :
  positional_value (s1 +:+ s2) =
  positional_value s1 * 2 ^ Z.of_nat (String.length s2) + positional_value s2.
Proof.
  induction s1 as [|c s1 IH].
  - change (EmptyString +:+ s2) with s2. unfold positional_value at 2. simpl. lia.
  - change (String c s1 +:+ s2) with (String c (s1 +:+ s2)).
    rewrite !positional_value_cons, IH, string_app_length.
    rewrite Nat2Z.inj_add, Z.pow_add_r by lia.
    destruct (Ascii.eqb c "1"); lia.
Qed.

(** X4: decoding composes over concatenation: the value of a field made of
    two adjacent sub-fields is the value of the first, shifted by the width
    of the second, plus the value of the second. *)
Theorem binaryToDecimal_app (s1 s2 : string) :
  (String.length s1 + String.length s2 ≤ 32)%nat →
  ∃ v1 v2,
    binaryToDecimal s1 = Some v1 ∧ binaryToDecimal s2 = Some v2
    ∧ binaryToDecimal (s1 +:+ s2) = Some (v1 * 2 ^ Z.of_nat (String.length s2) + v2).
Proof.
  intros Hlen. exists (positional_value s1), (positional_value s2).
  rewrite !binaryToDecimal_short, positional_value_app; [done|..]; try lia.
  rewrite string_app_length. lia.
Qed.

Lemma binaryToDecimal_app_witness :
  ∃ v1 v2,
    binaryToDecimal "10" = Some v1 ∧ binaryToDecimal "0110" = Some v2
    ∧ binaryToDecimal ("10" +:+ "0110") = Some (v1 * 2 ^ Z.of_nat (String.length "0110") + v2).
Proof. apply (binaryToDecimal_app "10" "0110"). simpl. lia. Defined.

(** ** The handlers on well-formed words *)

Lemma insert_touch {V} (k : string) (d v : V) (m : gmap string V) :
  <[k := v]> (touch k d m) = <[k := v]> m.
Proof.
  unfold touch. destruct (m !! k); [done|]. apply insert_insert_eq.
Qed.

Lemma touch_bound {V} (k : string) (d v : V) (m : gmap string V) :
  m !! k = Some v → touch k d m = m.
Proof. intros Hk. apply touch_present. eauto. Qed.

(** X5: [Incr] on a well-formed word adds the 6-bit literal at [[5:11)],
    which is below 64, to the register named at [[11:13)], modulo
    [2 ^ UINT_BITS], and changes nothing else. *)
Theorem incr_adds_literal (ins : string) (st : state) :
  well_formed ins = true →
  opcode_of ins = Some Opcode.Incr →
  ∃ amount,
    binaryToDecimal (String.substring 5 6 ins) = Some amount
    ∧ 0 ≤ amount < 64
    ∧ execute ins st =
        Next tt (State (<[String.substring 11 2 ins :=
                            wrap (reg_value st (String.substring 11 2 ins) + amount)]>
                          (registers st))
                   (arrays st) (memory st) (cin st) (cout st)).
Proof.
  intros Hwf Hop.
  destruct (substr_well_formed ins 5 6 Hwf) as (Hf & Hflen & _); [lia|].
  pose proof (substr_from_well_formed ins Hwf) as Hs.
  pose proof (register_field_valid ins 11 Hwf ltac:(lia)) as Hv.
  exists (positional_value (String.substring 5 6 ins)).
  assert (binaryToDecimal (String.substring 5 6 ins)
          = Some (positional_value (String.substring 5 6 ins))) as Hdec
    by (apply binaryToDecimal_short; lia).
  split; [done|]. split.
  - pose proof (positional_value_nonneg (String.substring 5 6 ins)).
    pose proof (positional_value_bound (String.substring 5 6 ins)) as Hb.
    rewrite Hflen in Hb. change (2 ^ Z.of_nat 6) with 64 in Hb. lia.
  - rewrite (execute_dispatch _ _ _ Hop). simpl.
    unfold handle_Incr, mbind, handler_bind, check_register.
    rewrite Hf. simpl. rewrite Hdec. simpl. rewrite Hs. simpl. rewrite Hv. simpl.
    unfold write_register. simpl. by rewrite insert_touch.
Qed.

Lemma incr_adds_literal_witness :
  ∃ st',
    execute "0001111111110" (State (<["10" := UINT_MAX]> initial_registers) ∅ [] [] [])
      = Next tt st'
    ∧ registers st' !! "10" = Some 62.
Proof.
  destruct (incr_adds_literal "0001111111110"
              (State (<["10" := UINT_MAX]> initial_registers) ∅ [] [] []))
    as (amount & Hdec & _ & Hrun); [reflexivity..|].
  eexists. split; [exact Hrun|].
  vm_compute in Hdec. injection Hdec as <-. vm_compute. reflexivity.
Defined.

(** X6: [In] on a well-formed word prompts, takes the next value of the
    console input (0 when the input is exhausted) and stores it into the
    register named at [[5:7)]. *)
Theorem in_reads_console (ins : string) (st : state) :
  well_formed ins = true →
  opcode_of ins = Some Opcode.In →
  execute ins st =
    Next tt (State (<[String.substring 5 2 ins := default 0 (head (cin st))]> (registers st))
               (arrays st) (memory st) (tail (cin st)) (cout st ++ [EnterValue])).
Proof.
  intros Hwf Hop.
  destruct (substr_well_formed ins 5 2 Hwf) as (Hd & _ & _); [lia|].
  pose proof (register_field_valid ins 5 Hwf ltac:(lia)) as Hv.
  rewrite (execute_dispatch _ _ _ Hop). simpl.
  unfold handle_In, mbind, handler_bind, check_register, print, extract. simpl.
  destruct (cin st) as [|v rest]; simpl; rewrite Hd; simpl; rewrite Hv; done.
Qed.

Lemma in_reads_console_witness :
  execute "0000101000000" (State initial_registers ∅ [] [42; 7] []) =
    Next tt (State (<["01" := 42]> initial_registers) ∅ [] [7] [EnterValue]).
Proof.
  apply (in_reads_console "0000101000000" (State initial_registers ∅ [] [42; 7] []));
    reflexivity.
Defined.

(** X7: [In] prompts and reads before it looks at its destination field:
    when the field is not a register code the run aborts with the value
    already consumed and no register written. *)
Theorem in_reads_before_validation (ins dest : string) (st : state) :
  opcode_of ins = Some Opcode.In →
  substr 5 2 ins = Some dest →
  validRegister dest = false →
  execute ins st =
    Exit (EXIT_FAILURE (InvalidRegisterError dest))
      (State (registers st) (arrays st) (memory st) (tail (cin st))
         (cout st ++ [EnterValue])).
Proof.
  intros Hop Hd Hv.
  rewrite (execute_dispatch _ _ _ Hop). simpl.
  unfold handle_In, mbind, handler_bind, check_register, print, extract. simpl.
  destruct (cin st) as [|v rest]; simpl; rewrite Hd; simpl; rewrite Hv; done.
Qed.

Lemma in_reads_before_validation_witness :
  execute "000012x000000" (State initial_registers ∅ [] [42; 7] []) =
    Exit (EXIT_FAILURE (InvalidRegisterError "2x"))
      (State initial_registers ∅ [] [7] [EnterValue]).
Proof.
  apply (in_reads_before_validation "000012x000000" "2x"
           (State initial_registers ∅ [] [42; 7] [])); reflexivity.
Defined.

(** X8: [Out] on a well-formed word writes the value of the register named
    at [[5:7)] to the console and changes nothing else. *)
Theorem out_writes_register (ins : string) (v : Z) (st : state) :
  well_formed ins = true →
  opcode_of ins = Some Opcode.Out →
  registers st !! String.substring 5 2 ins = Some v →
  execute ins st =
    Next tt (State (registers st) (arrays st) (memory st) (cin st) (cout st ++ [Value v])).
Proof.
  intros Hwf Hop Hreg.
  destruct (substr_well_formed ins 5 2 Hwf) as (Hs & _ & _); [lia|].
  pose proof (register_field_valid ins 5 Hwf ltac:(lia)) as Hv.
  rewrite (execute_dispatch _ _ _ Hop). simpl.
  unfold handle_Out, mbind, handler_bind, check_register.
  rewrite Hs. simpl. rewrite Hv. simpl.
  unfold print, reg_value. simpl. by rewrite (touch_bound _ _ v), Hreg.
Qed.

Lemma out_writes_register_witness :
  execute "0001011000000" (State (<["11" := 9]> initial_registers) ∅ [] [] []) =
    Next tt (State (<["11" := 9]> initial_registers) ∅ [] [] [Value 9]).
Proof.
  exact (out_writes_register "0001011000000" 9
           (State (<["11" := 9]> initial_registers) ∅ [] [] [])
           eq_refl eq_refl eq_refl).
Defined.

(** The element loop of [ListInit]: one prompt per element, in ascending
    order of the index; the elements are overwritten by the console values
    as long as there are any and keep their old value afterwards. *)
Lemma read_elements_run (i : nat) (elements : list Z) (st : state) :
  read_elements i elements st =
    Next (take (length elements) (cin st) ++ drop (length (cin st)) elements)
      (State (registers st) (arrays st) (memory st)
         (drop (length elements) (cin st))
         (cout st ++ (EnterIndex <$> seq i (length elements)))).
Proof.
  revert i st. induction elements as [|old rest IH]; intros i st.
  - simpl. rewrite drop_0, app_nil_r, drop_nil. by destruct st.
  - simpl read_elements. unfold mbind, handler_bind, print, extract. simpl.
    destruct (cin st) as [|v input] eqn:Hcin; simpl.
    + rewrite IH. simpl.
      rewrite take_nil, drop_nil, drop_0, <- app_assoc. done.
    + rewrite IH. simpl. rewrite <- app_assoc. done.
Qed.

(** X9: [ListInit] on a well-formed word prompts once per element of the
    array bound to the code at [[5:7)], in ascending order of the index, and
    fills the array from the console input; when the input runs out the
    remaining elements keep their values, and an unbound code gets the empty
    array. *)
Theorem listinit_fills_array (ins : string) (st : state) :
  well_formed ins = true →
  opcode_of ins = Some Opcode.ListInit →
  execute ins st =
    Next tt
      (State (registers st)
         (<[String.substring 5 2 ins :=
              take (length (array_value st (String.substring 5 2 ins))) (cin st)
              ++ drop (length (cin st)) (array_value st (String.substring 5 2 ins))]>
            (arrays st))
         (memory st)
         (drop (length (array_value st (String.substring 5 2 ins))) (cin st))
         (cout st ++
            (EnterIndex <$> seq 0 (length (array_value st (String.substring 5 2 ins)))))).
Proof.
  intros Hwf Hop.
  destruct (substr_well_formed ins 5 2 Hwf) as (Hs & _ & _); [lia|].
  pose proof (register_field_valid ins 5 Hwf ltac:(lia)) as Hv.
  rewrite (execute_dispatch _ _ _ Hop). simpl.
  unfold handle_ListInit, mbind, handler_bind, check_register.
  rewrite Hs. simpl. rewrite Hv. simpl.
  rewrite read_elements_run. unfold write_array. simpl. by rewrite insert_touch.
Qed.

Lemma listinit_fills_array_witness :
  execute "0100001000000"
    (State initial_registers {["01" := [0; 0; 0]]} [] [4; 5] [])
  = Next tt (State initial_registers (<["01" := [4; 5; 0]]> {["01" := [0; 0; 0]]}) [] []
               [EnterIndex 0; EnterIndex 1; EnterIndex 2]).
Proof.
  exact (listinit_fills_array "0100001000000"
           (State initial_registers {["01" := [0; 0; 0]]} [] [4; 5] [])
           eq_refl eq_refl).
Defined.

Lemma sum_elements_from (elements : list Z) (a : Z) :
  foldl (fun sum value => wrap (sum + value)) (wrap a) elements
  = wrap (a + foldr Z.add 0 elements).
Proof.
  revert a. induction elements as [|v rest IH]; intros a; simpl.
  - by rewrite Z.add_0_r.
  - assert (wrap (wrap a + v) = wrap (a + v)) as ->
      by (unfold wrap; apply Zplus_mod_idemp_l).
    rewrite IH. f_equal. lia.
Qed.

Lemma sum_elements_wrap (elements : list Z) :
  sum_elements elements = wrap (foldr Z.add 0 elements).
Proof. apply (sum_elements_from elements 0). Qed.

(** X10: [ListSum] on a well-formed word stores the sum of the elements of
    the array bound to the code at [[5:7)], modulo [2 ^ UINT_BITS], into the
    register named at [[7:9)]; the array and everything else are unchanged. *)
Theorem listsum_stores_sum (ins : string) (elements : list Z) (st : state) :
  well_formed ins = true →
  opcode_of ins = Some Opcode.ListSum →
  arrays st !! String.substring 5 2 ins = Some elements →
  execute ins st =
    Next tt (State (<[String.substring 7 2 ins := wrap (foldr Z.add 0 elements)]>
                      (registers st))
               (arrays st) (memory st) (cin st) (cout st)).
Proof.
  intros Hwf Hop Harr.
  destruct (substr_well_formed ins 5 2 Hwf) as (Hs & _ & _); [lia|].
  destruct (substr_well_formed ins 7 2 Hwf) as (Hd & _ & _); [lia|].
  pose proof (register_field_valid ins 5 Hwf ltac:(lia)) as Hvs.
  pose proof (register_field_valid ins 7 Hwf ltac:(lia)) as Hvd.
  rewrite (execute_dispatch _ _ _ Hop). simpl.
  unfold handle_ListSum, mbind, handler_bind, check_register.
  rewrite Hs, Hd. simpl. rewrite Hvs, Hvd. simpl.
  unfold write_register, array_value. simpl.
  by rewrite (touch_bound _ _ elements), Harr, sum_elements_wrap.
Qed.

Lemma listsum_stores_sum_witness :
  execute "0100101100000"
    (State initial_registers {["01" := [UINT_MAX; 3; 4]]} [] [] [])
  = Next tt (State (<["10" := 6]> initial_registers) {["01" := [UINT_MAX; 3; 4]]} [] [] []).
Proof.
  exact (listsum_stores_sum "0100101100000" [UINT_MAX; 3; 4]
           (State initial_registers {["01" := [UINT_MAX; 3; 4]]} [] [] [])
           eq_refl eq_refl eq_refl).
Defined.

Lemma sum_replicate_zero (n : nat) : foldr Z.add 0 (replicate n 0) = 0.
Proof. induction n as [|n IH]; simpl; [done|]. by rewrite IH. Qed.

(** X11: a [List] word followed by a [ListSum] word on the code the array
    was bound to leaves 0 in the destination register of [ListSum], whatever
    the size of the array. *)
Theorem list_then_listsum (alloc total : string) (st : state) :
  well_formed alloc = true → opcode_of alloc = Some Opcode.List →
  well_formed total = true → opcode_of total = Some Opcode.ListSum →
  String.substring 5 2 total = String.substring 11 2 alloc →
  ∃ st1 st2,
    execute alloc st = Next tt st1
    ∧ execute total st1 = Next tt st2
    ∧ registers st2 !! String.substring 7 2 total = Some 0
    ∧ arrays st2 = arrays st1.
Proof.
  intros Hwf1 Hop1 Hwf2 Hop2 Hsame.
  destruct (handle_List_run alloc _ _ st Hwf1 eq_refl eq_refl) as (regs & Hrun & _).
  rewrite (execute_dispatch _ _ _ Hop1). simpl. rewrite Hrun.
  eexists _, _. split; [done|].
  destruct (substr_well_formed total 5 2 Hwf2) as (Hs & _ & _); [lia|].
  destruct (substr_well_formed total 7 2 Hwf2) as (Hd & _ & _); [lia|].
  pose proof (register_field_valid total 5 Hwf2 ltac:(lia)) as Hvs.
  pose proof (register_field_valid total 7 Hwf2 ltac:(lia)) as Hvd.
  rewrite (execute_dispatch _ _ _ Hop2). simpl.
  unfold handle_ListSum, mbind, handler_bind, check_register.
  rewrite Hs, Hd. simpl. rewrite Hvs, Hvd. simpl.
  unfold write_register, array_value. simpl.
  rewrite Hsame, lookup_insert_eq. simpl.
  split; [done|]. simpl. split.
  - rewrite lookup_insert_eq, sum_elements_wrap, sum_replicate_zero. done.
  - apply touch_present. rewrite lookup_insert_eq. eauto.
Qed.

Lemma list_then_listsum_witness :
  ∃ st1 st2,
    execute "0011100001101" (initial_state [] []) = Next tt st1
    ∧ execute "0100101000000" st1 = Next tt st2
    ∧ registers st2 !! String.substring 7 2 "0100101000000" = Some 0
    ∧ arrays st2 = arrays st1.
Proof.
  exact (list_then_listsum "0011100001101" "0100101000000" (initial_state [] [])
           eq_refl eq_refl eq_refl eq_refl eq_refl).
Defined.

(** X12: [Add] followed by [Sub] of the same right operand gives back the
    left operand: wrap-around addition is undone by wrap-around subtraction,
    as long as the [Add] did not overwrite its right operand. *)
Theorem add_then_sub (add sub : string) (st : state) :
  well_formed add = true → opcode_of add = Some Opcode.Add →
  well_formed sub = true → opcode_of sub = Some Opcode.Sub →
  String.substring 5 2 sub = String.substring 9 2 add →
  String.substring 7 2 sub = String.substring 7 2 add →
  String.substring 9 2 add ≠ String.substring 7 2 add →
  is_uint (reg_value st (String.substring 5 2 add)) →
  ∃ st1 st2,
    execute add st = Next tt st1
    ∧ execute sub st1 = Next tt st2
    ∧ registers st2 !! String.substring 9 2 sub
      = Some (reg_value st (String.substring 5 2 add)).
Proof.
  intros Hwf1 Hop1 Hwf2 Hop2 Hlhs Hrhs Hne [Hlo Hhi].
  destruct (substr_well_formed add 5 2 Hwf1) as (Hl1 & _ & _); [lia|].
  destruct (substr_well_formed add 7 2 Hwf1) as (Hr1 & _ & _); [lia|].
  destruct (substr_well_formed add 9 2 Hwf1) as (Hd1 & _ & _); [lia|].
  destruct (substr_well_formed sub 5 2 Hwf2) as (Hl2 & _ & _); [lia|].
  destruct (substr_well_formed sub 7 2 Hwf2) as (Hr2 & _ & _); [lia|].
  destruct (substr_well_formed sub 9 2 Hwf2) as (Hd2 & _ & _); [lia|].
  pose proof (register_field_valid add 9 Hwf1 ltac:(lia)) as Hv1.
  pose proof (register_field_valid sub 9 Hwf2 ltac:(lia)) as Hv2.
  eexists _, _. split_and!.
  - rewrite (execute_dispatch _ _ _ Hop1). simpl.
    by apply handle_arith_run.
  - rewrite (execute_dispatch _ _ _ Hop2). simpl.
    by apply handle_arith_run.
  - simpl. rewrite lookup_insert_eq. f_equal.
    rewrite Hlhs, Hrhs. unfold reg_value in *. simpl.
    rewrite lookup_insert_eq, lookup_insert_ne by done. simpl.
    rewrite !default_touch.
    set (x := default 0 (registers st !! String.substring 5 2 add)) in *.
    set (y := default 0 (registers st !! String.substring 7 2 add)).
    unfold wrap. rewrite Zminus_mod_idemp_l.
    replace (x + y - y) with x by lia.
    apply Z.mod_small. unfold UINT_MAX in Hhi. lia.
Qed.

Lemma add_then_sub_witness :
  ∃ st1 st2,
    execute "0010000011000"
      (State (<["01" := UINT_MAX]> (<["00" := 7]> initial_registers)) ∅ [] [] [])
      = Next tt st1
    ∧ execute "0010110011100" st1 = Next tt st2
    ∧ registers st2 !! "11" = Some 7.
Proof.
  destruct (add_then_sub "0010000011000" "0010110011100"
              (State (<["01" := UINT_MAX]> (<["00" := 7]> initial_registers)) ∅ [] [] []))
    as (st1 & st2 & H1 & H2 & H3);
    [reflexivity | reflexivity | reflexivity | reflexivity | reflexivity | reflexivity
    | vm_compute; discriminate | vm_compute; split; discriminate |].
  exists st1, st2. split; [exact H1|]. split; [exact H2|]. exact H3.
Defined.

(** ** Aborted instructions *)

(** X13: an instruction that aborts (a failed register check or the
    exception of [substr]) leaves registers, arrays and program memory as
    they were, provided the four registers exist; only the console may have
    moved (the prompt and read of [In]). *)
Theorem abort_leaves_state (ins : string) (e : exit) (st st' : state) :
  register_codes ⊆ dom (registers st) →
  execute ins st = Exit e st' →
  registers st' = registers st ∧ arrays st' = arrays st ∧ memory st' = memory st.
Proof.
  intros Hfile.
  assert (∀ k, validRegister k = true → touch k 0 (registers st) = registers st)
    as Htouch.
  { intros k Hk%validRegister_codes. apply touch_present.
    apply elem_of_dom. by apply Hfile. }
  destruct (opcode_of_defined ins) as [code Hcode].
  rewrite (execute_dispatch _ _ _ Hcode).
  unfold handle_Stop, handle_In, handle_Out, handle_Incr, handle_arith,
    handle_List, handle_ListInit, handle_ListSum, handle_TidyUp.
  unfold mbind, handler_bind, lift_substr, lift_decimal, check_register,
    print, extract, read_register, write_register, read_array, write_array,
    leave, mret, handler_ret.
  intros Hrun.
  repeat (case_match; simplify_eq; simpl in *; try done).
  1, 2: by rewrite Htouch.
  by rewrite read_elements_run in * |-.
Qed.

Lemma abort_leaves_state_witness :
  registers (State initial_registers {["01" := [1]]} [] [] []) = initial_registers
  ∧ arrays (State initial_registers {["01" := [1]]} [] [] []) = {["01" := [1]]}.
Proof.
  destruct (abort_leaves_state "00111100000" (EXIT_FAILURE (InvalidRegisterError ""))
              (State initial_registers {["01" := [1]]} [] [] [])
              (State initial_registers {["01" := [1]]} [] [] []))
    as (Hregs & Harr & _);
    [apply (bool_decide_unpack _); by vm_compute | by vm_compute |].
  split; [exact Hregs | exact Harr].
Defined.

(** ** Outcomes of [main] *)

Lemma check_opcodes_first (good rest : list string) (bad : string) (code : Z) :
  (∀ ins c, ins ∈ good → opcode_of ins = Some c → c ≤ Opcode.TidyUp) →
  opcode_of bad = Some code → Opcode.TidyUp < code →
  check_opcodes (good ++ bad :: rest)
  = Some (EXIT_FAILURE (InvalidOpcodeError (String.substring 0 5 bad))).
Proof.
  intros Hgood Hbad Hbig. induction good as [|first good IH]; simpl.
  - unfold opcode_of in Hbad. rewrite Hbad.
    apply Z.ltb_lt in Hbig. by rewrite Hbig.
  - destruct (opcode_of_defined first) as [c Hc].
    pose proof (Hgood first c ltac:(left) Hc) as Hle.
    unfold opcode_of in Hc. rewrite Hc.
    destruct (Opcode.TidyUp <? c) eqn:Hlt; [apply Z.ltb_lt in Hlt; lia|].
    apply IH. intros ins c' Hin. apply Hgood. by right.
Qed.

(** X14: the opcode pre-pass reports the first token, in program order,
    whose opcode field decodes above [TidyUp]; the message carries the five
    opcode characters of that token, and nothing has been executed. *)
Theorem first_invalid_opcode_reported
    (good rest : list string) (bad : string) (code : Z) (input : list Z) :
  STOP ∈ good ++ bad :: rest →
  (∀ ins c, ins ∈ good → opcode_of ins = Some c → c ≤ Opcode.TidyUp) →
  opcode_of bad = Some code → Opcode.TidyUp < code →
  main (Some (good ++ bad :: rest)) input =
    (EXIT_FAILURE (InvalidOpcodeError (String.substring 0 5 bad)),
     initial_state (good ++ bad :: rest) input).
Proof.
  intros Hstop%has_stop_elem_of Hgood Hbad Hbig.
  unfold main. simpl.
  by rewrite Hstop, (check_opcodes_first good rest bad code).
Qed.

Lemma first_invalid_opcode_reported_witness :
  main (Some (["0001100010100"] ++ "01100xx" :: ["1111100000000"; STOP])) [] =
    (EXIT_FAILURE (InvalidOpcodeError "01100"),
     initial_state (["0001100010100"] ++ "01100xx" :: ["1111100000000"; STOP]) []).
Proof.
  apply (first_invalid_opcode_reported ["0001100010100"] ["1111100000000"; STOP]
           "01100xx" 12 []).
  - apply has_stop_elem_of. reflexivity.
  - intros ins c Hin%list_elem_of_singleton Hc. subst ins.
    vm_compute in Hc. injection Hc as <-. vm_compute. discriminate.
  - reflexivity.
  - reflexivity.
Defined.

Lemma check_opcodes_result (mem : list string) (e : exit) :
  check_opcodes mem = Some e →
  ∃ ins code,
    ins ∈ mem ∧ opcode_of ins = Some code ∧ Opcode.TidyUp < code
    ∧ e = EXIT_FAILURE (InvalidOpcodeError (String.substring 0 5 ins)).
Proof.
  induction mem as [|first mem IH]; [done|]. simpl.
  destruct (opcode_of_defined first) as [c Hc].
  unfold opcode_of in Hc. rewrite Hc.
  destruct (Opcode.TidyUp <? c) eqn:Hlt.
  - intros [= <-]. exists first, c. apply Z.ltb_lt in Hlt.
    split_and!; [left|done..].
  - intros (ins & code & Hin & Hop & Hbig & ->)%IH.
    exists ins, code. split_and!; [by right|done..].
Qed.

Lemma run_from_result (rest : list string) (st : state) :
  (run_from rest st).1 = EXIT_SUCCESS
  ∨ (run_from rest st).1 = out_of_range
  ∨ ∃ reg, (run_from rest st).1 = EXIT_FAILURE (InvalidRegisterError reg)
           ∧ validRegister reg = false.
Proof.
  revert st. induction rest as [|ins rest IH]; intros st; [by left|].
  simpl. destruct (execute ins st) as [[] st'|e st'] eqn:Hrun; [apply IH|].
  right. apply (execute_exits ins st e st' Hrun).
Qed.

(** X15: the ways a run on a loaded program can end: success, a missing
    [Stop] token, an opcode above [TidyUp] in some token, a register field
    that is not a register code, or the uncaught exception of [substr].  The
    conversion inside [binaryToDecimal] is never undefined. *)
Theorem main_outcomes (tokens : list string) (input : list Z) :
  (main (Some tokens) input).1 = EXIT_SUCCESS
  ∨ (main (Some tokens) input).1 = EXIT_FAILURE MissingHaltError
  ∨ (∃ ins code,
       ins ∈ tokens ∧ opcode_of ins = Some code ∧ Opcode.TidyUp < code
       ∧ (main (Some tokens) input).1
         = EXIT_FAILURE (InvalidOpcodeError (String.substring 0 5 ins)))
  ∨ (∃ reg,
       (main (Some tokens) input).1 = EXIT_FAILURE (InvalidRegisterError reg)
       ∧ validRegister reg = false)
  ∨ (main (Some tokens) input).1 = out_of_range.
Proof.
  unfold main. simpl.
  destruct (has_stop tokens); [|by right; left].
  destruct (check_opcodes tokens) as [e|] eqn:Hcheck.
  - right. right. left. simpl.
    destruct (check_opcodes_result tokens e Hcheck) as (ins & code & H1 & H2 & H3 & ->).
    by exists ins, code.
  - destruct (run_from_result tokens (initial_state tokens input)) as [H|[H|H]];
      auto 6.
Qed.

(** X16: a token of fewer than five characters whose opcode is one of [In]
    to [ListSum] ends the run with the uncaught exception of [substr]:
    every such handler slices an operand at position 5 or 7. *)
Theorem short_token_throws (ins : string) (code : Z) (st : state) :
  (String.length ins < 5)%nat →
  opcode_of ins = Some code →
  Opcode.In ≤ code ≤ Opcode.ListSum →
  ∃ st',
    execute ins st = Exit out_of_range st'
    ∧ registers st' = registers st ∧ arrays st' = arrays st.
Proof.
  intros Hlen Hop Hcode.
  assert (∀ pos n, (5 ≤ pos)%nat → substr pos n ins = None) as Hsub.
  { intros pos n Hpos. unfold substr. case_match eqn:Hle; [|done].
    apply Nat.leb_le in Hle. lia. }
  rewrite (execute_dispatch _ _ _ Hop).
  unfold Opcode.In, Opcode.ListSum in Hcode.
  assert (code = 1 ∨ code = 2 ∨ code = 3 ∨ code = 4 ∨ code = 5 ∨ code = 6
          ∨ code = 7 ∨ code = 8 ∨ code = 9) as Hcases by lia.
  unfold handle_In, handle_Out, handle_Incr, handle_arith, handle_List,
    handle_ListInit, handle_ListSum, mbind, handler_bind, print, extract.
  destruct Hcases as [-> | [-> | [-> | [-> | [-> | [-> | [-> | [-> | ->]]]]]]]];
    simpl; rewrite ?Hsub by lia; simpl; try (eexists; done).
  destruct (cin st); eexists; done.
Qed.

Lemma short_token_throws_witness :
  ∃ st',
    execute "11" (initial_state [] [5]) = Exit out_of_range st'
    ∧ registers st' = registers (initial_state [] [5])
    ∧ arrays st' = arrays (initial_state [] [5]).
Proof.
  apply (short_token_throws "11" 3 (initial_state [] [5])).
  - simpl. lia.
  - reflexivity.
  - vm_compute. split; discriminate.
Defined.

(** ** Whole runs *)

(** X17: whatever the program and the console input, the four registers
    [00], [01], [10] and [11] exist at every instruction boundary and when
    the run ends: no handler removes a register. *)
Theorem main_keeps_registers (tokens : list string) (input : list Z) :
  register_codes ⊆ dom (registers (main (Some tokens) input).2)
  ∧ ∀ st, st ∈ states_from tokens (initial_state tokens input) →
          ∀ reg, validRegister reg = true → is_Some (registers st !! reg).
Proof.
  split.
  - apply (registers_never_destroyed tokens input), main_final_state.
  - intros st Hst reg Hreg%validRegister_codes. apply elem_of_dom.
    by apply (registers_never_destroyed tokens input st Hst).
Qed.

(** X18: on a program made of well-formed 13-bit words the register file
    consists of exactly the four registers at every instruction boundary and
    when the run ends. *)
Theorem well_formed_register_file (tokens : list string) (input : list Z) :
  (∀ ins, ins ∈ tokens → well_formed ins = true) →
  dom (registers (main (Some tokens) input).2) = register_codes
  ∧ ∀ st, st ∈ states_from tokens (initial_state tokens input) →
          dom (registers st) = register_codes.
Proof.
  intros Hwf. split.
  - apply (register_file_well_formed tokens input); [done|].
    apply main_final_state.
  - intros st. by apply register_file_well_formed.
Qed.

Lemma well_formed_register_file_witness :
  dom (registers (main (Some ["0001100010100"; "0010000001001"; STOP]) []).2)
  = register_codes.
Proof.
  refine (proj1 (well_formed_register_file
                   ["0001100010100"; "0010000001001"; STOP] [] _)).
  intros ins Hin. repeat (apply elem_of_cons in Hin as [-> | Hin]; [reflexivity|]).
  by apply elem_of_nil in Hin.
Defined.

Lemma states_from_well_formed (rest : list string) (st : state) :
  (∀ ins, ins ∈ rest → well_formed ins = true) →
  length (states_from rest st) = S (length rest).
Proof.
  revert st. induction rest as [|ins rest IH]; intros st Hwf; [done|].
  simpl. destruct (execute ins st) as [[] st'|e st'] eqn:Hrun.
  - rewrite IH; [done|]. intros ins' Hin. apply Hwf. by right.
  - destruct (execute_well_formed ins (Hwf ins ltac:(left)) st e st' Hrun).
Qed.

(** X19: a program of well-formed 13-bit words that contains the [Stop]
    token and no opcode above [TidyUp] never aborts: every word is executed,
    in program order, and the run exits with success. *)
Theorem well_formed_run_completes (tokens : list string) (input : list Z) :
  (∀ ins, ins ∈ tokens → well_formed ins = true) →
  STOP ∈ tokens →
  (∀ ins code, ins ∈ tokens → opcode_of ins = Some code → code ≤ Opcode.TidyUp) →
  (main (Some tokens) input).1 = EXIT_SUCCESS
  ∧ length (states_from tokens (initial_state tokens input)) = S (length tokens)
  ∧ last (states_from tokens (initial_state tokens input))
    = Some (main (Some tokens) input).2.
Proof.
  intros Hwf Hstop Hcodes.
  destruct (well_formed_program_succeeds tokens input Hwf Hstop Hcodes) as [Hexit Hstate].
  split_and!; [done|by apply states_from_well_formed|].
  rewrite Hstate. apply run_from_last.
Qed.

Lemma well_formed_run_completes_witness :
  (main (Some ["0001100010100"; STOP; "0101000000000"]) []).1 = EXIT_SUCCESS.
Proof.
  refine (proj1 (well_formed_run_completes
                   ["0001100010100"; STOP; "0101000000000"] [] _ _ _)).
  - intros ins Hin. repeat (apply elem_of_cons in Hin as [-> | Hin]; [reflexivity|]).
    by apply elem_of_nil in Hin.
  - apply has_stop_elem_of. reflexivity.
  - intros ins code Hin Hop.
    repeat (apply elem_of_cons in Hin as [-> | Hin];
            [vm_compute in Hop; injection Hop as <-; vm_compute; discriminate|]).
    by apply elem_of_nil in Hin.
Defined.

(** Program memory is read-only and console input is only consumed from the
    front, whatever the token. *)
Lemma execute_frame (ins : string) (st : state) :
  memory (final (execute ins st)) = memory st
  ∧ ∃ used, cin st = used ++ cin (final (execute ins st)).
Proof.
  destruct (opcode_of_defined ins) as [code Hcode].
  rewrite (execute_dispatch _ _ _ Hcode).
  unfold handle_Stop, handle_In, handle_Out, handle_Incr, handle_arith,
    handle_List, handle_ListInit, handle_ListSum, handle_TidyUp.
  unfold mbind, handler_bind, lift_substr, lift_decimal, check_register,
    print, extract, read_register, write_register, read_array, write_array,
    leave, mret, handler_ret.
  repeat (case_match; simplify_eq; simpl in *; try done);
    try (split; [done|by exists []]);
    try (split; [done|by eexists [_]]).
  all: rewrite read_elements_run in * |-; simplify_eq; simpl.
  all: split; [done|]; eexists; by rewrite take_drop.
Qed.

(** X20: program memory is immutable once loaded and the console input is
    only consumed from the front: at every instruction boundary of a run, and
    when it ends, [memory] is the loaded program and the pending input is a
    suffix of the initial input. *)
Theorem memory_is_read_only (tokens : list string) (input : list Z) :
  (memory (main (Some tokens) input).2 = tokens
   ∧ ∃ used, input = used ++ cin (main (Some tokens) input).2)
  ∧ ∀ st, st ∈ states_from tokens (initial_state tokens input) →
          memory st = tokens ∧ ∃ used, input = used ++ cin st.
Proof.
  assert (∀ st, st ∈ states_from tokens (initial_state tokens input) →
                memory st = tokens ∧ ∃ used, input = used ++ cin st) as Hall.
  { apply (states_from_invariant
             (fun st => memory st = tokens ∧ ∃ used, input = used ++ cin st)).
    - intros ins _ st [Hmem [used Hused]].
      destruct (execute_frame ins st) as [Hmem' [used' Hused']].
      split; [congruence|]. exists (used ++ used').
      by rewrite <- app_assoc, <- Hused'.
    - split; [done|]. by exists []. }
  split; [|done]. apply Hall, main_final_state.
Qed.


(** ** Values stay within [unsigned int] *)

Lemma is_uint_wrap (v : Z) : is_uint (wrap v).
Proof.
  unfold is_uint, wrap, UINT_MAX.
  pose proof (Z.mod_pos_bound v (2 ^ UINT_BITS) ltac:(done)). lia.
Qed.

Lemma is_uint_zero : is_uint 0.
Proof. by vm_compute. Qed.

Lemma uint_touch {V} (P : V → Prop) (k : string) (d : V) (m : gmap string V) :
  P d → map_Forall (fun _ v => P v) m → map_Forall (fun _ v => P v) (touch k d m).
Proof.
  intros Hd Hm. unfold touch. destruct (m !! k); [done|].
  by apply map_Forall_insert_2.
Qed.

Lemma uint_elements (input old : list Z) (n : nat) :
  Forall is_uint input → Forall is_uint old →
  Forall is_uint (take n input ++ drop (length input) old).
Proof.
  intros Hin Hold. apply Forall_app. split.
  - by apply Forall_take.
  - by apply Forall_drop.
Qed.

Lemma uint_array_value (st : state) (k : string) :
  map_Forall (fun _ elements => Forall is_uint elements) (arrays st) →
  Forall is_uint (array_value st k).
Proof.
  intros Harr. unfold array_value.
  destruct (arrays st !! k) as [l|] eqn:Hk; simpl; [|done].
  by apply (Harr k l).
Qed.

(** Whatever the token, the loop body keeps every value within
    [unsigned int]. *)
Lemma execute_uint (ins : string) (st : state) :
  uint_state st → uint_state (final (execute ins st)).
Proof.
  intros (Hregs & Harr & Hcin).
  destruct (opcode_of_defined ins) as [code Hcode].
  rewrite (execute_dispatch _ _ _ Hcode).
  unfold handle_Stop, handle_In, handle_Out, handle_Incr, handle_arith,
    handle_List, handle_ListInit, handle_ListSum, handle_TidyUp.
  unfold mbind, handler_bind, lift_substr, lift_decimal, check_register,
    print, extract, read_register, write_register, read_array, write_array,
    leave, mret, handler_ret.
  unfold uint_state.
  repeat (case_match; simplify_eq; simpl in *; try done).
  all: rewrite ?read_elements_run in * |-; simplify_eq; simpl.
  all: split_and!;
    repeat first
      [ done
      | apply map_Forall_insert_2
      | apply uint_touch
      | apply is_uint_wrap
      | apply is_uint_zero
      | apply Forall_replicate
      | apply uint_elements
      | apply uint_array_value
      | apply Forall_drop ].
  - by apply Forall_cons in Hcin as [? _].
  - by apply Forall_cons in Hcin as [_ ?].
  - by apply Forall_cons in Hcin as [_ ?].
  - by apply Forall_cons in Hcin as [_ ?].
  - rewrite sum_elements_wrap. apply is_uint_wrap.
  - apply map_Forall_fmap. intros k v _. apply is_uint_zero.
Qed.

(** X21: when the console delivers values of [unsigned int], every register
    and every array element is a value of [unsigned int] at every instruction
    boundary of the run and when it ends, for well-formed and malformed
    programs alike. *)
Theorem values_stay_unsigned (tokens : list string) (input : list Z) :
  Forall is_uint input →
  uint_state (main (Some tokens) input).2
  ∧ ∀ st, st ∈ states_from tokens (initial_state tokens input) →
          (∀ reg v, registers st !! reg = Some v → 0 ≤ v ≤ UINT_MAX)
          ∧ (∀ code elements v, arrays st !! code = Some elements →
                                v ∈ elements → 0 ≤ v ≤ UINT_MAX).
Proof.
  intros Hinput.
  assert (∀ st, st ∈ states_from tokens (initial_state tokens input) →
                uint_state st) as Hall.
  { apply (states_from_invariant uint_state).
    - intros ins _ st. apply execute_uint.
    - split_and!; [|done..]. simpl.
      unfold initial_registers.
      repeat (apply map_Forall_insert_2; [apply is_uint_zero|]). done. }
  split; [apply Hall, main_final_state|].
  intros st (Hregs & Harr & _)%Hall. split.
  - intros reg v Hv. apply (Hregs reg v Hv).
  - intros code elements v Hel Hv.
    pose proof (Harr code elements Hel) as Hforall.
    rewrite Forall_forall in Hforall. by apply Hforall.
Qed.

Lemma values_stay_unsigned_witness :
  uint_state (main (Some ["0000100000000"; "0010100011000"; STOP]) [3]).2.
Proof.
  refine (proj1 (values_stay_unsigned ["0000100000000"; "0010100011000"; STOP] [3] _)).
  apply Forall_cons. split; [by vm_compute|]. apply Forall_nil. done.
Defined.


(** ** Decoding is injective on bit strings *)

Lemma toBinary_low_bits (w : nat) (n m : Z) :
  n mod 2 ^ Z.of_nat w = m mod 2 ^ Z.of_nat w → toBinary w n = toBinary w m.
Proof.
  induction w as [|w IH]; intros Hmod; [done|]. simpl.
  assert (Z.testbit n (Z.of_nat w) = Z.testbit m (Z.of_nat w)) as ->.
  { rewrite <- (Z.mod_pow2_bits_low n (Z.of_nat (S w))) by lia.
    rewrite <- (Z.mod_pow2_bits_low m (Z.of_nat (S w))) by lia.
    by rewrite Hmod. }
  f_equal. apply IH.
  rewrite Nat2Z.inj_succ, Z.pow_succ_r in Hmod by lia.
  rewrite (Z.mul_comm 2) in Hmod.
  rewrite !Z.rem_mul_r in Hmod by lia.
  assert (0 < 2 ^ Z.of_nat w) as Hp by (apply Z.pow_pos_nonneg; lia).
  pose proof (Z.mod_pos_bound n (2 ^ Z.of_nat w) Hp).
  pose proof (Z.mod_pos_bound m (2 ^ Z.of_nat w) Hp).
  pose proof (Z.mod_pos_bound (n / 2 ^ Z.of_nat w) 2 ltac:(lia)) as Hb.
  pose proof (Z.mod_pos_bound (m / 2 ^ Z.of_nat w) 2 ltac:(lia)) as Hb'.
  set (b := (n / 2 ^ Z.of_nat w) mod 2) in *.
  set (b' := (m / 2 ^ Z.of_nat w) mod 2) in *.
  assert (b = 0 ∨ b = 1) as [-> | ->] by lia;
    assert (b' = 0 ∨ b' = 1) as [-> | ->] by lia; lia.
Qed.

Lemma toBinary_positional_value (s : string) :
  all_bits s = true → toBinary (String.length s) (positional_value s) = s.
Proof.
  induction s as [|c s IH]; [done|]. simpl all_bits.
  intros [Hc Hs]%andb_prop. rewrite positional_value_cons. simpl.
  pose proof (positional_value_nonneg s) as Hlo.
  pose proof (positional_value_bound s) as Hhi.
  set (n := Z.of_nat (String.length s)) in *.
  assert (0 < 2 ^ n) by (apply Z.pow_pos_nonneg; lia).
  f_equal.
  - unfold is_bit in Hc. rewrite Z.testbit_eqb by lia.
    destruct (Ascii.eqb c "1") eqn:H1.
    + apply Ascii.eqb_eq in H1. subst c.
      replace ((2 ^ n + positional_value s) / 2 ^ n) with 1; [done|].
      apply (Z.div_unique_pos _ _ 1 (positional_value s)); lia.
    + rewrite orb_false_r in Hc. apply Ascii.eqb_eq in Hc. subst c.
      rewrite Z.add_0_l, Z.div_small by lia. done.
  - etrans; [|apply (IH Hs)]. apply toBinary_low_bits. fold n.
    destruct (Ascii.eqb c "1").
    + rewrite <- (Z.mul_1_l (2 ^ n)) at 1. rewrite Z.add_comm.
      by rewrite Z.mod_add by lia.
    + by rewrite Z.add_0_l.
Qed.

(** X22: the other direction of the round trip: a string of at most 32
    binary digits is recovered from its decoded value and its length, so
    [binaryToDecimal] is injective on bit strings of equal length. *)
Theorem binaryToDecimal_injective (s t : string) (v : Z) :
  all_bits s = true → (String.length s ≤ 32)%nat →
  binaryToDecimal s = Some v →
  toBinary (String.length s) v = s
  ∧ (all_bits t = true → String.length t = String.length s →
     binaryToDecimal t = Some v → t = s).
Proof.
  intros Hs Hlen Hv.
  rewrite binaryToDecimal_short in Hv by done. injection Hv as <-.
  split; [by apply toBinary_positional_value|].
  intros Ht Hlt Htv.
  rewrite binaryToDecimal_short in Htv by lia. injection Htv as Heq.
  rewrite <- (toBinary_positional_value t Ht), Hlt, Heq.
  by apply toBinary_positional_value.
Qed.

Lemma binaryToDecimal_injective_witness :
  toBinary (String.length "100101") 37 = "100101".
Proof.
  exact (proj1 (binaryToDecimal_injective "100101" "100101" 37 eq_refl
                  ltac:(simpl; lia) eq_refl)).
Defined.

(** ** The literal sizes of [List] *)

Lemma literal_field_split (ins : string) :
  well_formed ins = true →
  String.substring 5 6 ins = String.substring 5 2 ins +:+ String.substring 7 4 ins.
Proof.
  intros [Hlen%Nat.eqb_eq _]%andb_prop.
  do 14 (destruct ins as [|? ins]; try discriminate Hlen). done.
Qed.

(** X23: the overloaded operand layout of [List]: on the literal path (bits
    [[7:11)] other than [0000]) the allocated size is the 6-bit literal, and
    it is never a multiple of 16; the sizes 0, 16, 32 and 48 can only be
    reached through a register.  The registers are not touched on this
    path. *)
Theorem list_literal_sizes (ins : string) (st : state) :
  well_formed ins = true →
  opcode_of ins = Some Opcode.List →
  String.eqb (String.substring 7 4 ins) "0000" = false →
  ∃ size,
    binaryToDecimal (String.substring 5 6 ins) = Some size
    ∧ 0 < size < 64 ∧ size mod 16 ≠ 0
    ∧ execute ins st =
        Next tt (State (registers st)
                   (<[String.substring 11 2 ins := replicate (Z.to_nat size) 0]> (arrays st))
                   (memory st) (cin st) (cout st)).
Proof.
  intros Hwf Hop Hdisc.
  destruct (substr_well_formed ins 7 4 Hwf) as (Hd & Hdlen & Hdbits); [lia|].
  destruct (substr_well_formed ins 5 2 Hwf) as (_ & Hrlen & _); [lia|].
  destruct (substr_well_formed ins 5 6 Hwf) as (Hf & Hflen & _); [lia|].
  pose proof (substr_from_well_formed ins Hwf) as Hs.
  pose proof (register_field_valid ins 11 Hwf ltac:(lia)) as Hvs.
  assert (binaryToDecimal (String.substring 5 6 ins)
          = Some (positional_value (String.substring 5 6 ins))) as Hdec
    by (apply binaryToDecimal_short; lia).
  exists (positional_value (String.substring 5 6 ins)).
  split; [done|].
  assert (positional_value (String.substring 7 4 ins) ≠ 0) as Hnz.
  { intros Hzero. apply String.eqb_neq in Hdisc. apply Hdisc.
    rewrite <- (toBinary_positional_value _ Hdbits), Hdlen, Hzero. done. }
  pose proof (positional_value_nonneg (String.substring 7 4 ins)) as Hlo.
  pose proof (positional_value_bound (String.substring 7 4 ins)) as Hhi.
  pose proof (positional_value_nonneg (String.substring 5 2 ins)) as Hlo2.
  pose proof (positional_value_bound (String.substring 5 2 ins)) as Hhi2.
  rewrite Hdlen in Hhi. rewrite Hrlen in Hhi2.
  change (2 ^ Z.of_nat 4) with 16 in Hhi. change (2 ^ Z.of_nat 2) with 4 in Hhi2.
  rewrite (literal_field_split ins Hwf), positional_value_app, Hdlen in *.
  change (2 ^ Z.of_nat 4) with 16 in *.
  split_and!.
  - lia.
  - lia.
  - rewrite Z.add_comm, Z.mod_add, Z.mod_small by lia. done.
  - rewrite (execute_dispatch _ _ _ Hop). simpl.
    unfold handle_List, mbind, handler_bind, check_register.
    rewrite Hd. simpl. rewrite Hdisc, Hf. simpl. rewrite Hdec. simpl.
    rewrite Hs. simpl. rewrite Hvs. done.
Qed.

Lemma list_literal_sizes_witness :
  ∃ size,
    binaryToDecimal (String.substring 5 6 "0011101000111") = Some size
    ∧ 0 < size < 64 ∧ size mod 16 ≠ 0
    ∧ execute "0011101000111" (initial_state [] []) =
        Next tt (State (registers (initial_state [] []))
                   (<[String.substring 11 2 "0011101000111" :=
                        replicate (Z.to_nat size) 0]> (arrays (initial_state [] [])))
                   (memory (initial_state [] [])) (cin (initial_state [] []))
                   (cout (initial_state [] []))).
Proof.
  exact (list_literal_sizes "0011101000111" (initial_state [] [])
           eq_refl eq_refl eq_refl).
Defined.
